(** * generic-3Dproduct-viewer: animation and asset-loading core

    A shallow embedding of
    - [src/app/3D/utility/ProductItemUtility.ts]   (module [ProductItemUtility])
    - [src/app/3D/MaterialAnimators/MaterialColorChanger.ts]
                                                   (module [MaterialColorChanger])
    - [src/app/3D/MeshLoader.ts]                   (module [MeshLoader])
    together with the part of three.js these files rely on (module [Three]).

    JavaScript numbers are IEEE 754 binary64 values: they are modelled by
    Rocq's primitive floats, whose operations are the binary64 ones.
    JavaScript objects that are mutated in place and may be shared (colours,
    materials) live in a heap and are named by their index; the scene graph
    is a tree, as three.js keeps it (a node has one parent). *)

From Stdlib Require Import ZArith Floats Ascii String.
From stdpp Require Import base option list strings gmap.

Local Open Scope nat_scope.

(* ===================================================================== *)
(** * Part I: the program *)
(* ===================================================================== *)

(** ** ProductItemUtility.ts *)

Module ProductItemUtility.

(** [ActiveProductItemEventType]: the enum's declaration is not among the
    sources at hand.  [ColorChange] is the member the colour changer
    registers its animations under; the other members are numbered. *)
Inductive ActiveProductItemEventType : Type :=
| ColorChange
| OtherEvent (tag : nat).

#[global] Instance ActiveProductItemEventType_eq_dec :
  EqDecision ActiveProductItemEventType.
Proof. solve_decision. Defined.

(** An active event: its category and its cancel callback.  The callback
    is a closure built by the animation driver; it acts on the rest of the
    world [W] (driver state, materials), not on the list being swept. *)
Record ActiveProductItemEvent (W : Type) : Type := mkEvent {
  type : ActiveProductItemEventType;
  cancelEvent : bool -> W -> W
}.
Arguments mkEvent {W} _ _.
Arguments type {W} _.
Arguments cancelEvent {W} _ _ _.

(** The part of [ProductItem] the registry works on. *)
Record ProductItem (W : Type) : Type := mkProductItem {
  id : nat;
  name : string;
  activeEvents : list (ActiveProductItemEvent W)
}.
Arguments mkProductItem {W} _ _ _.
Arguments id {W} _.
Arguments name {W} _.
Arguments activeEvents {W} _.

(** [Array.prototype.includes] on an array of enum members. *)
Fixpoint includes (types : list ActiveProductItemEventType)
         (t : ActiveProductItemEventType) : bool :=
  match types with
  | [] => false
  | t' :: rest => if decide (t' = t) then true else includes rest t
  end.

(** The [for] loop of [clearEvents]: [i] is the loop index, [events] the
    array (spliced in place), [w] the world the cancel callbacks act on.
    One unit of [fuel] is one evaluation of the loop condition; [None] is
    a loop that has not finished within the fuel (or an access out of
    range, which the loop condition excludes). *)
Fixpoint clearEvents_loop {W : Type} (fuel : nat)
         (types : list ActiveProductItemEventType) (completeEvent : bool)
         (i : nat) (events : list (ActiveProductItemEvent W)) (w : W)
  : option (list (ActiveProductItemEvent W) * W) :=
  match fuel with
  | O => None
  | S fuel' =>
      if i <? length events then
        match events !! i with
        | None => None
        | Some event =>
            if negb (includes types (type event)) then
              clearEvents_loop fuel' types completeEvent (S i) events w
            else
              let w' := cancelEvent event completeEvent w in
              clearEvents_loop fuel' types completeEvent i (delete i events) w'
        end
      else Some (events, w)
  end.

(** [clearEvents(productItem, types, completeEvent)].  Every iteration
    either advances [i] or shortens the array, so [length + 1] evaluations
    of the loop condition are enough (theorem [clearEvents_loop_spec]). *)
Definition clearEvents {W : Type} (productItem : ProductItem W)
           (types : list ActiveProductItemEventType) (completeEvent : bool)
           (w : W) : option (ProductItem W * W) :=
  match clearEvents_loop (S (length (activeEvents productItem)))
                         types completeEvent 0 (activeEvents productItem) w with
  | Some (events', w') =>
      Some (mkProductItem (id productItem) (name productItem) events', w')
  | None => None
  end.

(** What the sweep is expected to leave and to cancel. *)
Definition kept {W : Type} (types : list ActiveProductItemEventType)
           (events : list (ActiveProductItemEvent W)) :=
  List.filter (fun e => negb (includes types (type e))) events.

Definition cancelled {W : Type} (types : list ActiveProductItemEventType)
           (events : list (ActiveProductItemEvent W)) :=
  List.filter (fun e => includes types (type e)) events.

Definition cancelAll {W : Type} (completeEvent : bool)
           (events : list (ActiveProductItemEvent W)) (w : W) : W :=
  fold_left (fun w e => cancelEvent e completeEvent w) events w.

End ProductItemUtility.

(** ** The part of three.js the sources rely on *)

Module Three.

(** A JavaScript [number]. *)
Definition number : Set := float.

(** [Color]: three mutable channels. *)
Record Color : Set := mkColor { r : number; g : number; b : number }.

#[global] Instance Color_inhabited : Inhabited Color :=
  populate (mkColor 0%float 0%float 0%float).

(** Objects that are shared and mutated in place are named by their
    position in the heap. *)
Definition ColorRef : Set := nat.
Definition MaterialRef : Set := nat.

Inductive Side : Set := FrontSide | BackSide | DoubleSide.

(** A texture handle, as [TextureLoader.load(url)] returns it at once. *)
Record Texture : Set := mkTexture { url : option string }.

(** [Material] with the properties the sources read or write.  [color] is
    present on the materials that have a flat colour ([ColorMaterial]). *)
Record Material : Set := mkMaterial {
  name : string;
  color : option ColorRef;
  side : Side;
  map : option Texture;
  normalMap : option Texture;
  envMap : option Texture;
  envMapIntensity : option number;
  needsUpdate : bool
}.

#[global] Instance Material_inhabited : Inhabited Material :=
  populate (mkMaterial EmptyString None FrontSide None None None None false).

Record Heap : Set := mkHeap {
  colors : list Color;
  materials : list Material
}.

(** [new Color(r, g, b)]: a fresh colour object. *)
Definition newColor (r g b : number) (h : Heap) : ColorRef * Heap :=
  (length (colors h), mkHeap (colors h ++ [mkColor r g b]) (materials h)).

(** [c.clone()]: a fresh colour object with the channels of [c]. *)
Definition clone (c : ColorRef) (h : Heap) : ColorRef * Heap :=
  let v := colors h !!! c in
  newColor (r v) (g v) (b v) h.

(** [c.setRGB(r, g, b)]: the channels of [c] are overwritten in place. *)
Definition setRGB (c : ColorRef) (r g b : number) (h : Heap) : Heap :=
  mkHeap (<[c := mkColor r g b]> (colors h)) (materials h).

(** The material of a node: one material or an array of them.  The
    property can also hold a value that is no material at all: [Foreign k]
    is the member of [Object.prototype] found under the key [k] (a
    function, or the prototype object itself for [__proto__]), which
    [loadMaterial] can assign (see [readMaterials]). *)
Inductive MeshMaterial : Set :=
| Single (m : MaterialRef)
| Multi (ms : list MaterialRef)
| Foreign (member : string).

(** [Mesh] nodes ([isMesh] is true) always carry a material; any other
    node (a [Group], a line, a point cloud) may have a [material] property
    or not. *)
Inductive ObjectKind : Set :=
| Mesh (material : MeshMaterial)
| NotMesh (material : option MeshMaterial).

(** [Object3D]: a node of the scene graph with its children. *)
#[local] Unset Elimination Schemes.
Inductive Object3D : Set := mkObject3D {
  kind : ObjectKind;
  castShadow : bool;
  receiveShadow : bool;
  children : list Object3D
}.

#[local] Set Elimination Schemes.

Definition isMesh (o : Object3D) : bool :=
  match kind o with Mesh _ => true | NotMesh _ => false end.

Definition material (o : Object3D) : option MeshMaterial :=
  match kind o with Mesh m => Some m | NotMesh m => m end.

(** [o.traverse(callback)] calls [callback] on [o], then traverses each
    child in turn: the nodes in the order the callback sees them. *)
Fixpoint traverse (o : Object3D) : list Object3D :=
  o :: flat_map traverse (children o).

(** [new Group()]: no material, no children, shadow flags off. *)
Definition newGroup : Object3D := mkObject3D (NotMesh None) false false [].

(** [descendant root o]: [o] is [root] or lies below it. *)
Inductive descendant (root : Object3D) : Object3D -> Prop :=
| descendant_self : descendant root root
| descendant_child (c o : Object3D) :
    In c (children root) -> descendant c o -> descendant root o.

(** Induction over a scene graph: a property of all the children of a node
    may be assumed when proving it for the node. *)
Section Object3D_induction.
Variable P : Object3D -> Prop.
Hypothesis node_case :
  forall k cast recv cs, Forall P cs -> P (mkObject3D k cast recv cs).

Fixpoint Object3D_ind (o : Object3D) : P o :=
  match o with
  | mkObject3D k cast recv cs =>
      node_case k cast recv cs
        ((fix all (l : list Object3D) : Forall P l :=
            match l with
            | [] => List.Forall_nil P
            | c :: l' => List.Forall_cons P c l' (Object3D_ind c) (all l')
            end) cs)
  end.
End Object3D_induction.

End Three.

(** ** MaterialColorChanger.ts *)

Module MaterialAnimationType.
(** The enum's declaration is not among the sources; these are the two
    members the colour changer dispatches on. *)
Inductive t : Set := None | Linear.
End MaterialAnimationType.

Module MaterialColorChanger.
Import ProductItemUtility.
Export Three.

Local Open Scope float_scope.

(** [MaterialColorSwapEventData].  [targetColor] is read while the items
    are built and never written, so the event carries its channels.  The
    field [materials] is written [materials_] here, and the field
    [material] of an item [material_], to keep them apart from the heap's
    [materials] and a node's [material]. *)
Record MaterialColorSwapEventData : Type := mkColorSwap {
  productItem : ProductItem Heap;
  materials_ : option (list MaterialRef);
  rootObject : option Object3D;
  targetColor : Color;
  animationType : MaterialAnimationType.t
}.

Record AnimatableColorItem : Set := mkItem {
  startColor : ColorRef;
  deltaColor : ColorRef;
  material_ : MaterialRef
}.

(** Modelled from the spec: [isColorMaterial] of [utility/MaterialUtility],
    the capability predicate "supports flat color": the material has a
    [color]. *)
Definition isColorMaterial (m : Material) : bool :=
  match color m with Some _ => true | Datatypes.None => false end.

(** One turn of the loop of [tryAddAnimatableItems]. *)
Definition tryAddAnimatableItem (targetColor : Color)
           (acc : list AnimatableColorItem * Heap) (material : MaterialRef)
  : list AnimatableColorItem * Heap :=
  let '(items, h) := acc in
  let mat := Three.materials h !!! material in
  match color mat with
  | Datatypes.None => (items, h)
  | Some c =>
      let cur := colors h !!! c in
      let '(deltaColor, h1) :=
        newColor (r targetColor - r cur) (g targetColor - g cur)
                 (b targetColor - b cur) h in
      let '(startColor, h2) := clone c h1 in
      (items ++ [mkItem startColor deltaColor material], h2)
  end.

Definition tryAddAnimatableItems (materials : list MaterialRef)
           (targetColor : Color) (acc : list AnimatableColorItem * Heap)
  : list AnimatableColorItem * Heap :=
  fold_left (tryAddAnimatableItem targetColor) materials acc.

(** The callback given to [traverse] in [getAnimatableItems].  A value
    that is no material has no [color]: it does not pass
    [isColorMaterial]. *)
Definition visit (targetColor : Color)
           (acc : list AnimatableColorItem * Heap) (o : Object3D)
  : list AnimatableColorItem * Heap :=
  match kind o with
  | NotMesh _ => acc
  | Mesh (Multi ms) => tryAddAnimatableItems ms targetColor acc
  | Mesh (Single m) => tryAddAnimatableItems [m] targetColor acc
  | Mesh (Foreign _) => acc
  end.

Definition getAnimatableItems (event : MaterialColorSwapEventData) (h : Heap)
  : list AnimatableColorItem * Heap :=
  let acc0 : list AnimatableColorItem * Heap := ([], h) in
  let acc1 :=
    match materials_ event with
    | Some ms => tryAddAnimatableItems ms (targetColor event) acc0
    | Datatypes.None => acc0
    end in
  match rootObject event with
  | Some root => fold_left (visit (targetColor event)) (traverse root) acc1
  | Datatypes.None => acc1
  end.

(** One turn of the loop of [doProgress]. *)
Definition doProgressItem (progress : number) (h : Heap)
           (item : AnimatableColorItem) : Heap :=
  let s := colors h !!! startColor item in
  let d := colors h !!! deltaColor item in
  let r' := r s + progress * r d in
  let g' := g s + progress * g d in
  let b' := b s + progress * b d in
  match color (Three.materials h !!! material_ item) with
  | Some c => setRGB c r' g' b' h
  | Datatypes.None => h
  end.

Definition doProgress (items : list AnimatableColorItem) (progress : number)
           (h : Heap) : Heap :=
  fold_left (doProgressItem progress) items h.

(** The animation driver ([createAnimation]) and the host's frame
    scheduler ([requestAnimationFrame]) are outside these sources: a call
    to either is recorded.  [Animation] stands for the tick function that
    [createAnimation] returns: it is determined by the arguments of the
    call, [onProgress] being [doProgress] over [items]. *)
Record Animation : Type := mkAnimation {
  owner : ProductItem Heap;
  category : ActiveProductItemEventType;
  duration : number;
  items : list AnimatableColorItem
}.

Inductive HostCall : Type :=
| CreateAnimation (a : Animation)
| RequestAnimationFrame (a : Animation).

Definition changeColorLinearly (event : MaterialColorSwapEventData)
           (duration : number) (h : Heap) : Heap * list HostCall :=
  let '(items, h1) := getAnimatableItems event h in
  if duration <=? 0 then (doProgress items 1 h1, [])
  else
    let animate := mkAnimation (productItem event) ColorChange duration items in
    (h1, [CreateAnimation animate; RequestAnimationFrame animate]).

(** The subscription of the constructor. *)
Definition onColorSwap (event : MaterialColorSwapEventData) (h : Heap)
  : Heap * list HostCall :=
  match animationType event with
  | MaterialAnimationType.None => changeColorLinearly event 0 h
  | MaterialAnimationType.Linear => changeColorLinearly event 250 h
  end.

(** *** Vocabulary of the properties *)

(** The colour a material shows. *)
Definition materialColor (h : Heap) (m : MaterialRef) : option Color :=
  mat ← Three.materials h !! m; c ← color mat; colors h !! c.

(** Channel-wise difference, sum and interpolation in binary64. *)
Definition minus (t s : Color) : Color :=
  mkColor (r t - r s) (g t - g s) (b t - b s).

Definition plus (s d : Color) : Color :=
  mkColor (r s + r d) (g s + g d) (b s + b d).

Definition interpolate (s d : Color) (p : number) : Color :=
  mkColor (r s + p * r d) (g s + p * g d) (b s + p * b d).

(** The materials of a node, one or many. *)
Definition nodeMaterials (o : Object3D) : list MaterialRef :=
  match material o with
  | Some (Single m) => [m]
  | Some (Multi ms) => ms
  | Some (Foreign _) => []
  | Datatypes.None => []
  end.

(** A heap without dangling colour references: the [color] of every
    material is a colour object of the heap. *)
Definition heap_wf (h : Heap) : Prop :=
  forallb (fun mat => match color mat with
                      | Some c => (c <? length (colors h))%nat
                      | Datatypes.None => true
                      end) (Three.materials h) = true.

(** What can happen to the heap once the items of a batch exist: a tick
    of the batch's animation, or anyone writing the colour of a live
    material. *)
Inductive later_step (items : list AnimatableColorItem) : Heap -> Heap -> Prop :=
| tick (p : number) (h : Heap) :
    later_step items h (doProgress items p h)
| external_write (m : MaterialRef) (mat : Material) (c : ColorRef)
                 (r g b : number) (h : Heap) :
    Three.materials h !! m = Some mat ->
    color mat = Some c ->
    later_step items h (setRGB c r g b h).

End MaterialColorChanger.

(** ** MeshLoader.ts *)

Module MeshLoader.
Export Three.

(** *** Promises *)

(** How a promise ends, given how the loaders it waits for end: resolved
    with a value, rejected, or never settled. *)
Inductive Promise (A : Type) : Type :=
| Resolved (a : A)
| Rejected
| Pending.
Arguments Resolved {A} _.
Arguments Rejected {A}.
Arguments Pending {A}.

(** [await p] inside an [async] executor or callback of [new Promise]: on
    a value the function goes on; a rejection is thrown inside the [async]
    function and rejects that function's own promise, which nobody
    observes, so [resolve] is never called and the promise under
    construction stays pending. *)
Definition await {A B : Type} (p : Promise A) (k : A -> Promise B) : Promise B :=
  match p with
  | Resolved a => k a
  | Rejected => Pending
  | Pending => Pending
  end.

(** *** Strings *)

(** [s.split(sep)] for a separator of one character. *)
Fixpoint split (sep : ascii) (s : string) : list string :=
  match s with
  | EmptyString => [EmptyString]
  | String c rest =>
      if Ascii.eqb c sep then EmptyString :: split sep rest
      else match split sep rest with
           | [] => [String c EmptyString]
           | part :: parts => String c part :: parts
           end
  end.

(** [s.toLowerCase()], on the letters A to Z (file names are ASCII here). *)
Definition toLowerCaseChar (c : ascii) : ascii :=
  let n := nat_of_ascii c in
  if (65 <=? n) && (n <=? 90) then ascii_of_nat (n + 32) else c.

Fixpoint toLowerCase (s : string) : string :=
  match s with
  | EmptyString => EmptyString
  | String c rest => String (toLowerCaseChar c) (toLowerCase rest)
  end.

(** Whether an optional string is truthy: present and not empty. *)
Definition truthy (s : option string) : bool :=
  match s with
  | Some EmptyString => false
  | Some _ => true
  | None => false
  end.

(** *** Data *)

(** [MaterialInfo] (its declaration is not among the sources): the
    properties [loadMaterial] reads.  With a truthy [mtl] the materials come
    from a material file, otherwise from the raw textures. *)
Record MaterialInfo : Set := mkMaterialInfo {
  mtl : option string;
  diffuseTexture : option string;
  normalTexture : option string;
  renderBackface : bool
}.

Record Model3D : Set := mkModel3D {
  filename : string;
  materialInfo : MaterialInfo
}.

Record ModelLoadedEventData : Set := mkModelLoaded {
  object : option Object3D;
  model : Model3D
}.

(** [MTLLoader.MaterialCreator]: the own properties of its [materials]
    dictionary, filled by [preload], one per material of the file. *)
Record MaterialCreator : Type := mkMaterialCreator {
  creatorMaterials : gmap string MaterialRef
}.

(** [GLTF]: the scenes of the document, each a node with children. *)
Record GLTF : Set := mkGLTF { scenes : list Object3D }.

Record WebGLRenderTarget : Set := mkRenderTarget { texture : Texture }.

(** The collaborators outside these sources.  A loader whose [load] gives
    [None] never calls [onLoad] (the file cannot be fetched or parsed; the
    sources pass no [onError]).  Loaders create objects, so they take and
    return the heap.  Progress callbacks do not touch the model. *)
Record Loaders : Type := mkLoaders {
  objLoader_load : string -> Heap -> option (Object3D * Heap);
  mtlLoader_load : string -> Heap -> option MaterialCreator;
  preload : MaterialCreator -> Heap -> MaterialCreator * Heap;
  gltfLoader_load : string -> Heap -> option (GLTF * Heap);
  loadEnvironment : string -> Promise WebGLRenderTarget
}.

(** *** Writing to materials and nodes *)

Definition updateMaterial (f : Material -> Material) (m : MaterialRef)
           (h : Heap) : Heap :=
  mkHeap (colors h) (alter f m (Three.materials h)).

Definition setSide (v : Side) (mat : Material) : Material :=
  mkMaterial (name mat) (color mat) v (map mat) (normalMap mat)
             (envMap mat) (envMapIntensity mat) (needsUpdate mat).

Definition setMap (v : option Texture) (mat : Material) : Material :=
  mkMaterial (name mat) (color mat) (side mat) v (normalMap mat)
             (envMap mat) (envMapIntensity mat) (needsUpdate mat).

Definition setNormalMap (v : option Texture) (mat : Material) : Material :=
  mkMaterial (name mat) (color mat) (side mat) (map mat) v
             (envMap mat) (envMapIntensity mat) (needsUpdate mat).

Definition setEnvironment (t : Texture) (mat : Material) : Material :=
  mkMaterial (name mat) (color mat) (side mat) (map mat) (normalMap mat)
             (Some t) (Some 0.0625%float) true.

(** [new MeshPhongMaterial({})]: a fresh material with a fresh white
    colour. *)
Definition newMeshPhongMaterial (h : Heap) : MaterialRef * Heap :=
  let '(c, h1) := newColor 1%float 1%float 1%float h in
  (length (Three.materials h1),
   mkHeap (colors h1)
          (Three.materials h1
           ++ [mkMaterial EmptyString (Some c) FrontSide None None None None false])).

(** [textureLoader.load(url)]. *)
Definition textureLoader_load (url : option string) : Texture := mkTexture url.

(** [mesh.material = m]. *)
Definition setMaterial (m : MaterialRef) (o : Object3D) : Object3D :=
  mkObject3D (match kind o with
              | Mesh _ => Mesh (Single m)
              | NotMesh _ => NotMesh (Some (Single m))
              end)
             (castShadow o) (receiveShadow o) (children o).

(** *** The passes over a loaded subtree *)

(** [setReceiveShadows(children)]. *)
Fixpoint setReceiveShadow (child : Object3D) : Object3D :=
  mkObject3D (kind child) true true (setReceiveShadow <$> children child).

Definition setReceiveShadows (children : list Object3D) : list Object3D :=
  setReceiveShadow <$> children.

(** [trySetEnvironmentTexture(children, texture)].  On an array of
    materials the three assignments land on the array, not on a material;
    on a value that is no material they land on that value. *)
Fixpoint trySetEnvironmentTexture1 (texture : WebGLRenderTarget)
         (child : Object3D) (h : Heap) : Heap :=
  let h1 :=
    match material child with
    | Some (Single m) => updateMaterial (setEnvironment (MeshLoader.texture texture)) m h
    | Some (Multi _) => h
    | Some (Foreign _) => h
    | None => h
    end in
  fold_left (fun h c => trySetEnvironmentTexture1 texture c h) (children child) h1.

Definition trySetEnvironmentTexture (children : list Object3D)
           (texture : WebGLRenderTarget) (h : Heap) : Heap :=
  fold_left (fun h c => trySetEnvironmentTexture1 texture c h) children h.

(** [trySetBackfaceRendering(children)]. *)
Fixpoint trySetBackfaceRendering1 (child : Object3D) (h : Heap) : Heap :=
  let h1 :=
    match material child with
    | Some (Single m) => updateMaterial (setSide DoubleSide) m h
    | Some (Multi _) => h
    | Some (Foreign _) => h
    | None => h
    end in
  fold_left (fun h c => trySetBackfaceRendering1 c h) (children child) h1.

Definition trySetBackfaceRendering (children : list Object3D) (h : Heap) : Heap :=
  fold_left (fun h c => trySetBackfaceRendering1 c h) children h.

(** *** The loader *)

Definition withChildren (o : Object3D) (cs : list Object3D) : Object3D :=
  mkObject3D (kind o) (castShadow o) (receiveShadow o) cs.

(** [(mesh.material as Material).name] used as a property key: the name of
    a single material; an array has no [name], and [undefined] as a key is
    the string "undefined"; a function has its own [name] ("Object" for
    the constructor), the prototype object has none. *)
Definition materialKey (h : Heap) (mm : MeshMaterial) : string :=
  match mm with
  | Single m => name (Three.materials h !!! m)
  | Multi _ => "undefined"
  | Foreign member =>
      if String.eqb member "constructor" then "Object"
      else if String.eqb member "__proto__" then "undefined"
      else member
  end.

(** The keys under which every plain object finds a member of
    [Object.prototype]. *)
Definition objectPrototypeMembers : list string :=
  ["constructor"; "__defineGetter__"; "__defineSetter__"; "hasOwnProperty";
   "__lookupGetter__"; "__lookupSetter__"; "isPrototypeOf";
   "propertyIsEnumerable"; "toString"; "valueOf"; "__proto__";
   "toLocaleString"]%string.

Definition isObjectPrototypeMember (key : string) : bool :=
  existsb (String.eqb key) objectPrototypeMembers.

(** [materialCreator.materials[key]].  The dictionary is a plain object
    ([{}]): [creatorMaterials] are its own properties, one per material of
    the file, and a key it does not have is looked up in
    [Object.prototype].  [None] is [undefined].  (A file that defines a
    material called [__proto__] would change the prototype itself; the
    theorems leave such files out.) *)
Definition readMaterials (creator : MaterialCreator) (key : string)
  : option MeshMaterial :=
  match creatorMaterials creator !! key with
  | Some found => Some (Single found)
  | None => if isObjectPrototypeMember key then Some (Foreign key) else None
  end.

(** [mesh.material = value]. *)
Definition setMaterialTo (value : MeshMaterial) (o : Object3D) : Object3D :=
  mkObject3D (match kind o with
              | Mesh _ => Mesh value
              | NotMesh _ => NotMesh (Some value)
              end)
             (castShadow o) (receiveShadow o) (children o).

(** The callback of [forEach] in the material-file branch.  [None] is the
    [TypeError] of reading [name] on a child without a [material].  What
    is read from the dictionary is assigned when it is truthy, and every
    value but [undefined] is. *)
Definition assignFromFile (creator : MaterialCreator) (h : Heap)
           (child : Object3D) : option Object3D :=
  match material child with
  | None => None
  | Some mm =>
      match readMaterials creator (materialKey h mm) with
      | Some value => Some (setMaterialTo value child)
      | None => Some child
      end
  end.

(** [loadMaterial(object, materialInfo)].  The object is changed in place:
    the promise is given the changed object along with the heap. *)
Definition loadMaterial (ld : Loaders) (object : Object3D)
           (materialInfo : MaterialInfo) (h : Heap) : Promise (Object3D * Heap) :=
  if truthy (mtl materialInfo) then
    match mtlLoader_load ld (default EmptyString (mtl materialInfo)) h with
    | None => Pending
    | Some materialCreator =>
        let '(materialCreator, h1) := preload ld materialCreator h in
        match mapM (assignFromFile materialCreator h1) (children object) with
        | None => Pending
        | Some children' =>
            let object' := withChildren object children' in
            let h2 := if renderBackface materialInfo
                      then trySetBackfaceRendering [object'] h1 else h1 in
            Resolved (object', h2)
        end
    end
  else
    let '(material, h1) := newMeshPhongMaterial h in
    let h2 := updateMaterial
                (setMap (Some (textureLoader_load (diffuseTexture materialInfo))))
                material h1 in
    let h3 := if truthy (normalTexture materialInfo)
              then updateMaterial
                     (setNormalMap
                        (Some (textureLoader_load (normalTexture materialInfo))))
                     material h2
              else h2 in
    let object' :=
      withChildren object (setMaterial material <$> children object) in
    let h4 := if renderBackface materialInfo
              then trySetBackfaceRendering [object'] h3 else h3 in
    Resolved (object', h4).

(** [loadObj(file, materialInfo)]. *)
Definition loadObj (ld : Loaders) (file : string) (materialInfo : MaterialInfo)
           (h : Heap) : Promise (Object3D * Heap) :=
  match objLoader_load ld file h with
  | None => Pending
  | Some (group, h1) =>
      await (loadMaterial ld group materialInfo h1) (fun '(group, h2) =>
        match setReceiveShadows [group] with
        | group :: _ => Resolved (group, h2)
        | [] => Pending
        end)
  end.

Definition environmentMapUrl : string :=
  "assets/models/pbr/Soft_4TubeBank_2BlackFlags.exr".

(** [rootObject.add(...nodes)]. *)
Definition add (o : Object3D) (nodes : list Object3D) : Object3D :=
  withChildren o (children o ++ nodes).

(** [loadGlTF(file, materialInfo)]. *)
Definition loadGlTF (ld : Loaders) (file : string) (materialInfo : MaterialInfo)
           (h : Heap) : Promise (Object3D * Heap) :=
  let environmentPromise := loadEnvironment ld environmentMapUrl in
  match gltfLoader_load ld file h with
  | None => Pending
  | Some (gltfObject, h1) =>
      await environmentPromise (fun texture =>
        let rootObject :=
          fold_left (fun root scene => add root (children scene))
                    (scenes gltfObject) newGroup in
        let children1 := setReceiveShadows (children rootObject) in
        let h2 := trySetEnvironmentTexture children1 texture h1 in
        let h3 := if renderBackface materialInfo
                  then trySetBackfaceRendering children1 h2 else h2 in
        Resolved (withChildren rootObject children1, h3))
  end.

(** The lower-case text after the last dot of the file name. *)
Definition fileExtension (model : Model3D) : string :=
  let fileParts := split "." (filename model) in
  toLowerCase (List.last fileParts EmptyString).

(** [loadMesh(model)]. *)
Definition loadMesh (ld : Loaders) (model : Model3D) (h : Heap)
  : Promise (ModelLoadedEventData * Heap) :=
  let fileExtension := fileExtension model in
  if String.eqb fileExtension "obj" then
    await (loadObj ld (filename model) (materialInfo model) h) (fun '(object, h') =>
      Resolved (mkModelLoaded (Some object) model, h'))
  else if String.eqb fileExtension "gltf" then
    await (loadGlTF ld (filename model) (materialInfo model) h) (fun '(object, h') =>
      Resolved (mkModelLoaded (Some object) model, h'))
  else
    Resolved (mkModelLoaded None model, h).

End MeshLoader.

(* ===================================================================== *)
(** * Part II: the properties *)
(* ===================================================================== *)

Module ProductItemUtilityProofs.
Import ProductItemUtility.

Section Sweep.
Context {W : Type}.
Implicit Types (events : list (ActiveProductItemEvent W)) (w : W).

Lemma take_delete_here events i :
  i < length events -> take i (delete i events) = take i events.
Proof.
  intros Hi. rewrite delete_take_drop.
  apply take_app_length'. rewrite length_take. lia.
Qed.

Lemma drop_delete_here events i :
  i < length events -> drop i (delete i events) = drop (S i) events.
Proof.
  intros Hi. rewrite delete_take_drop.
  apply drop_app_length'. rewrite length_take. lia.
Qed.

(** The loop, started at index [i] with the entries below [i] already
    scanned, finishes within [length events - i + 1] evaluations of its
    condition. *)
Lemma clearEvents_loop_spec types completeEvent fuel :
  forall i events w,
    i <= length events ->
    length events - i < fuel ->
    clearEvents_loop fuel types completeEvent i events w
    = Some (take i events ++ kept types (drop i events),
            cancelAll completeEvent (cancelled types (drop i events)) w).
Proof.
  induction fuel as [|fuel IH]; intros i events w Hi Hfuel; [lia|].
  cbn [clearEvents_loop].
  destruct (Nat.ltb_spec i (length events)) as [Hlt|Hge].
  - destruct (lookup_lt_is_Some_2 events i Hlt) as [event Hev].
    rewrite Hev, (drop_S _ _ _ Hev).
    unfold kept, cancelled. cbn [List.filter].
    destruct (includes types (type event)) eqn:Hin; cbn [negb].
    + rewrite IH by (rewrite length_delete by eauto; lia).
      rewrite take_delete_here, drop_delete_here by lia.
      reflexivity.
    + rewrite IH by lia.
      rewrite (take_S_r _ _ _ Hev), <- app_assoc. reflexivity.
  - assert (i = length events) as -> by lia.
    rewrite drop_all, take_ge by lia. cbn. rewrite app_nil_r. reflexivity.
Qed.

Lemma kept_all types events :
  cancelled types events = [] -> kept types events = events.
Proof.
  unfold kept, cancelled.
  induction events as [|e events IH]; cbn [List.filter]; [reflexivity|].
  destruct (includes types (type e)); cbn [negb]; [discriminate|].
  intros H. rewrite IH by assumption. reflexivity.
Qed.

(** C3. [clearEvents] finishes; it leaves, in their order, exactly the
    entries whose category is not in [types], and it has called
    [cancelEvent completeEvent], in list order, on exactly the entries
    whose category is in [types].  When no entry matches, the entity
    and the world are returned as they were. *)
Theorem clearEvents_sweeps_matching (productItem : ProductItem W)
        types completeEvent w :
  clearEvents productItem types completeEvent w
  = Some (mkProductItem (id productItem) (name productItem)
                        (kept types (activeEvents productItem)),
          cancelAll completeEvent
                    (cancelled types (activeEvents productItem)) w)
  /\ (cancelled types (activeEvents productItem) = [] ->
      clearEvents productItem types completeEvent w = Some (productItem, w)).
Proof.
  assert (clearEvents productItem types completeEvent w
          = Some (mkProductItem (id productItem) (name productItem)
                    (kept types (activeEvents productItem)),
                  cancelAll completeEvent
                    (cancelled types (activeEvents productItem)) w)) as Heq.
  { unfold clearEvents.
    rewrite clearEvents_loop_spec by lia.
    rewrite take_0, drop_0. reflexivity. }
  split; [exact Heq|].
  intros Hnone. rewrite Heq, Hnone, kept_all by assumption.
  destruct productItem; reflexivity.
Qed.
End Sweep.

End ProductItemUtilityProofs.

Module MaterialColorChangerProofs.
Import ProductItemUtility MaterialColorChanger.

(** *** binary64: multiplying by one is exact *)

Lemma digits2_pos_shift52 (m : positive) :
  Zpos (digits2_pos (Pos.mul 4503599627370496 m))
  = (Zpos (digits2_pos m) + 52)%Z.
Proof. cbv beta iota fix delta [Pos.mul]. cbn [digits2_pos]. lia. Qed.

Lemma SF64mul_one_l (s : spec_float) :
  valid_binary s = true ->
  SF64mul (S754_finite false 4503599627370496 (-52)) s = s.
Proof.
  destruct s as [sg|sg| |sg m e]; try reflexivity.
  intros Hv. unfold SpecFloat.valid_binary, bounded, canonical_mantissa in Hv.
  apply andb_prop in Hv as [Hc Hb].
  apply Z.eqb_eq in Hc.
  unfold SF64mul, SFmul, binary_round_aux, shr_fexp.
  cbn [Zdigits2 xorb].
  rewrite digits2_pos_shift52.
  replace (Z.pos (digits2_pos m) + 52 + (-52 + e))%Z
    with (Z.pos (digits2_pos m) + e)%Z by lia.
  rewrite Hc.
  replace (e - (-52 + e))%Z with 52%Z by lia.
  cbn [shr shr_record_of_loc].
  replace (SpecFloat.iter_pos shr_1 52
             {| shr_m := Z.pos (4503599627370496 * m);
                shr_r := false; shr_s := false |})
    with {| shr_m := Z.pos m; shr_r := false; shr_s := false |}
    by reflexivity.
  cbn [shr_m loc_of_shr_record round_nearest_even Zdigits2].
  replace (-52 + e + 52)%Z with e by lia.
  rewrite Hc, Z.sub_diag. cbn [shr shr_m].
  rewrite Hb. reflexivity.
Qed.

Lemma float_mul_1_l (x : float) : (1 * x)%float = x.
Proof.
  apply Prim2SF_inj. rewrite mul_spec.
  apply SF64mul_one_l, Prim2SF_valid.
Qed.

Lemma interpolate_one (s d : Color) : interpolate s d 1%float = plus s d.
Proof. unfold interpolate, plus. rewrite !float_mul_1_l. reflexivity. Qed.

(** *** A batch of items and the heap it was built from *)

Section Batch.
Context (h0 : Heap) (target : Color).
Hypothesis Hwf : heap_wf h0.

(** The colour object [c] as it was when the items were built. *)
Definition snapshot (c : ColorRef) : Color := colors h0 !!! c.

(** An item as [tryAddAnimatableItems] makes it: its material had the colour
    object [c]; its two colour objects are younger than every object of
    [h0] and hold the snapshot of [c] and the difference to the target. *)
Definition item_good (h : Heap) (it : AnimatableColorItem) : Prop :=
  exists mat c,
    Three.materials h0 !! material_ it = Some mat /\
    color mat = Some c /\
    length (colors h0) <= startColor it /\
    length (colors h0) <= deltaColor it /\
    colors h !! startColor it = Some (snapshot c) /\
    colors h !! deltaColor it = Some (minus target (snapshot c)).

(** While the items are built the heap only grows. *)
Definition created (acc : list AnimatableColorItem * Heap) : Prop :=
  Three.materials acc.2 = Three.materials h0 /\
  (exists extra, colors acc.2 = colors h0 ++ extra) /\
  Forall (item_good acc.2) acc.1.

(** After that, the colour objects of the items stay as [h1] has them. *)
Definition stable (h1 h : Heap) : Prop :=
  Three.materials h = Three.materials h0 /\
  length (colors h0) <= length (colors h) /\
  forall i, length (colors h0) <= i -> colors h !! i = colors h1 !! i.

Lemma wf_color_bound m mat c :
  Three.materials h0 !! m = Some mat -> color mat = Some c ->
  c < length (colors h0).
Proof using Hwf.
  intros Hm Hc. unfold heap_wf in Hwf.
  rewrite forallb_forall in Hwf.
  specialize (Hwf mat). rewrite Hc in Hwf.
  apply Nat.ltb_lt, Hwf, list_elem_of_In.
  eapply list_elem_of_lookup_2, Hm.
Qed.

Lemma lookup_total_color m c :
  color (Three.materials h0 !!! m) = Some c ->
  exists mat, Three.materials h0 !! m = Some mat /\ color mat = Some c.
Proof.
  rewrite list_lookup_total_alt.
  destruct (Three.materials h0 !! m) as [mat|]; cbn; [eauto|discriminate].
Qed.

Lemma item_good_mono h h' it :
  (forall i x, colors h !! i = Some x -> colors h' !! i = Some x) ->
  item_good h it -> item_good h' it.
Proof.
  intros Hsub (mat & c & Hm & Hc & Hs & Hd & Hsv & Hdv).
  exists mat, c. repeat split; auto.
Qed.

Lemma created_tryAddAnimatableItem acc m :
  created acc -> created (tryAddAnimatableItem target acc m).
Proof using Hwf.
  destruct acc as [its h]. intros (Hm & [extra He] & Hgood). cbn in *.
  unfold tryAddAnimatableItem. rewrite Hm.
  destruct (color (Three.materials h0 !!! m)) as [c|] eqn:Hc;
    [|by repeat split; eauto].
  destruct (lookup_total_color _ _ Hc) as (mat & Hlk & Hcm).
  pose proof (wf_color_bound _ _ _ Hlk Hcm) as Hlt.
  assert (colors h !!! c = snapshot c) as Hcur.
  { unfold snapshot. rewrite !list_lookup_total_alt, He.
    rewrite lookup_app_l by lia. reflexivity. }
  unfold newColor, clone. cbn.
  assert ((colors h ++ [mkColor (r target - r (colors h !!! c))%float
                                (g target - g (colors h !!! c))%float
                                (b target - b (colors h !!! c))%float]) !!! c
          = snapshot c) as Hcur'.
  { rewrite <- Hcur, !list_lookup_total_alt, lookup_app_l; [reflexivity|].
    rewrite He, length_app. lia. }
  rewrite Hcur', Hcur.
  assert (length (colors h0) <= length (colors h)) as Hlen
      by (rewrite He, length_app; lia).
  unfold created. cbn.
  split; [reflexivity|]. split.
  - exists (extra ++ [minus target (snapshot c)]
                  ++ [mkColor (r (snapshot c)) (g (snapshot c)) (b (snapshot c))]).
    rewrite He, <- !app_assoc. reflexivity.
  - apply Forall_app. split.
    + eapply Forall_impl; [exact Hgood|]. intros it.
      apply item_good_mono. intros i x Hx. cbn.
      by do 2 apply lookup_app_l_Some.
    + apply Forall_singleton. exists mat, c. cbn.
      rewrite length_app. cbn.
      repeat split; try assumption; try lia.
      * rewrite lookup_app_r by (rewrite length_app; cbn; lia).
        rewrite length_app. cbn.
        replace (length (colors h) + 1 - (length (colors h) + 1)) with 0 by lia.
        cbn. by destruct (snapshot c).
      * rewrite lookup_app_l by (rewrite length_app; cbn; lia).
        rewrite lookup_app_r by lia.
        by rewrite Nat.sub_diag.
Qed.

Lemma created_tryAddAnimatableItems ms acc :
  created acc -> created (tryAddAnimatableItems ms target acc).
Proof using Hwf.
  unfold tryAddAnimatableItems. revert acc.
  induction ms as [|m ms IH]; intros acc Hacc; cbn; [exact Hacc|].
  apply IH, created_tryAddAnimatableItem, Hacc.
Qed.

Lemma created_visit acc o : created acc -> created (visit target acc o).
Proof using Hwf.
  intros Hacc. unfold visit.
  destruct (kind o) as [[m|ms|k]|]; auto using created_tryAddAnimatableItems.
Qed.

Lemma created_visits os acc :
  created acc -> created (fold_left (visit target) os acc).
Proof using Hwf.
  revert acc. induction os as [|o os IH]; intros acc Hacc; cbn; [exact Hacc|].
  apply IH, created_visit, Hacc.
Qed.

Lemma created_start : created ([], h0).
Proof.
  repeat split; cbn; [|constructor].
  exists []. by rewrite app_nil_r.
Qed.

Lemma created_getAnimatableItems event :
  targetColor event = target -> created (getAnimatableItems event h0).
Proof using Hwf.
  intros Ht. unfold getAnimatableItems. rewrite Ht.
  assert (created match materials_ event with
                  | Some ms => tryAddAnimatableItems ms target ([], h0)
                  | Datatypes.None => ([], h0)
                  end) as Hexplicit.
  { destruct (materials_ event) as [ms|];
      auto using created_tryAddAnimatableItems, created_start. }
  destruct (rootObject event) as [root|]; auto using created_visits.
Qed.

(** *** After the items exist *)

Lemma stable_created its h1 : created (its, h1) -> stable h1 h1.
Proof.
  intros (Hm & [extra He] & _). cbn in *. repeat split; [exact Hm|].
  rewrite He, length_app. lia.
Qed.

Lemma stable_setRGB h1 h c r g b :
  c < length (colors h0) -> stable h1 h -> stable h1 (setRGB c r g b h).
Proof.
  intros Hc (Hm & Hlen & Hhigh). repeat split; cbn.
  - exact Hm.
  - by rewrite length_insert.
  - intros i Hi. rewrite list_lookup_insert_ne by lia. by apply Hhigh.
Qed.

Lemma stable_doProgressItem h1 h p it :
  stable h1 h -> stable h1 (doProgressItem p h it).
Proof using Hwf.
  intros Hst. unfold doProgressItem.
  destruct (color (Three.materials h !!! material_ it)) as [c|] eqn:Hc;
    [|exact Hst].
  apply stable_setRGB; [|exact Hst].
  destruct Hst as (Hm & _). rewrite Hm in Hc.
  destruct (lookup_total_color _ _ Hc) as (mat & Hlk & Hcm).
  eauto using wf_color_bound.
Qed.

Lemma stable_doProgress h1 its p h :
  stable h1 h -> stable h1 (doProgress its p h).
Proof using Hwf.
  unfold doProgress. revert h.
  induction its as [|it its IH]; intros h Hst; cbn; [exact Hst|].
  apply IH, stable_doProgressItem, Hst.
Qed.

Lemma stable_later its h1 h :
  created (its, h1) ->
  rtc (later_step its) h1 h -> stable h1 h.
Proof using Hwf.
  intros Hcr. revert h.
  apply rtc_ind_r; [by eapply stable_created|].
  intros h h' _ Hstep IH.
  destruct Hstep as [p h|m mat c r g b h Hlk Hc].
  - by apply stable_doProgress.
  - apply stable_setRGB; [|assumption].
    destruct IH as (Hm' & _). rewrite Hm' in Hlk.
    eauto using wf_color_bound.
Qed.

Lemma item_good_stable h1 h it :
  stable h1 h -> item_good h1 it -> item_good h it.
Proof.
  intros (Hm & Hlen & Hhigh) (mat & c & Hlk & Hc & Hs & Hd & Hsv & Hdv).
  exists mat, c. repeat split; try assumption.
  - by rewrite Hhigh.
  - by rewrite Hhigh.
Qed.

(** One turn of [doProgress] writes the interpolated colour, computed from
    the snapshot, into the colour object of the item's material. *)
Definition applied (p : number) (c : ColorRef) : Color :=
  interpolate (snapshot c) (minus target (snapshot c)) p.

Lemma doProgressItem_good h1 h p it mat c :
  stable h1 h -> item_good h it ->
  Three.materials h0 !! material_ it = Some mat -> color mat = Some c ->
  doProgressItem p h it = setRGB c (r (applied p c)) (g (applied p c))
                                 (b (applied p c)) h.
Proof.
  intros (Hm & _) (mat' & c' & Hlk & Hc & _ & _ & Hsv & Hdv) Hlk' Hc'.
  assert (mat' = mat) as -> by congruence.
  assert (c' = c) as -> by congruence.
  unfold doProgressItem.
  rewrite Hm, (list_lookup_total_correct _ _ _ Hlk'), Hc'.
  rewrite (list_lookup_total_correct _ _ _ Hsv).
  rewrite (list_lookup_total_correct _ _ _ Hdv).
  reflexivity.
Qed.

Lemma doProgress_applied h1 p its :
  forall h,
    stable h1 h -> Forall (item_good h1) its ->
    forall c,
      c < length (colors h0) ->
      colors h !! c = Some (applied p c) \/
      Exists (fun it => exists mat, Three.materials h0 !! material_ it = Some mat
                                    /\ color mat = Some c) its ->
      colors (doProgress its p h) !! c = Some (applied p c).
Proof using Hwf.
  unfold doProgress.
  induction its as [|it its IH]; intros h Hst Hgood c Hc Hcase; cbn.
  - destruct Hcase as [Hdone|Hex]; [exact Hdone|by apply Exists_nil in Hex].
  - apply Forall_cons in Hgood as [Hit Hgood].
    pose proof (item_good_stable _ _ _ Hst Hit) as Hit'.
    destruct Hit as (mat & ci & Hlk & Hci & _).
    pose proof (wf_color_bound _ _ _ Hlk Hci) as Hlt.
    apply IH; [by apply stable_doProgressItem|exact Hgood|exact Hc|].
    rewrite (doProgressItem_good _ _ _ _ _ _ Hst Hit' Hlk Hci). cbn.
    assert (ci < length (colors h)) as Hlen
        by (destruct Hst as (_ & Hlen & _); lia).
    destruct (decide (ci = c)) as [->|Hne].
    + left. by apply list_lookup_insert_eq.
    + rewrite list_lookup_insert_ne by assumption.
      destruct Hcase as [Hdone|Hex]; [by left|].
      apply Exists_cons in Hex as [(mat' & Hlk' & Hc')|Hex]; [|by right].
      congruence.
Qed.

End Batch.

(** The facts above, for the batch of one event. *)
Lemma batch_facts (h0 : Heap) (event : MaterialColorSwapEventData)
      (items : list AnimatableColorItem) (h1 h : Heap)
      (item : AnimatableColorItem) :
  heap_wf h0 ->
  getAnimatableItems event h0 = (items, h1) ->
  rtc (later_step items) h1 h ->
  item ∈ items ->
  exists mat c,
    Three.materials h0 !! material_ item = Some mat /\ color mat = Some c /\
    c < length (colors h0) /\
    materialColor h0 (material_ item) = Some (snapshot h0 c) /\
    stable h0 h1 h /\
    Forall (item_good h0 (targetColor event) h1) items /\
    item_good h0 (targetColor event) h item.
Proof.
  intros Hwf Hget Hsteps Hin.
  pose proof (created_getAnimatableItems h0 _ Hwf event eq_refl) as Hcr.
  rewrite Hget in Hcr.
  pose proof (stable_later h0 _ Hwf _ _ _ Hcr Hsteps) as Hst.
  destruct Hcr as (_ & _ & Hgood). cbn in Hgood.
  pose proof (proj1 (Forall_forall _ _) Hgood _ Hin) as Hit.
  pose proof Hit as (mat & c & Hlk & Hc & _).
  pose proof (wf_color_bound h0 Hwf _ _ _ Hlk Hc) as Hlt.
  exists mat, c. do 3 (split; [assumption|]).
  split; [|split; [exact Hst|split; [exact Hgood|]]].
  - unfold materialColor. rewrite Hlk. cbn. rewrite Hc. cbn.
    by apply list_lookup_lookup_total_lt.
  - by eapply item_good_stable.
Qed.

(** C9. The two colour objects of an item hold the colour its material
    had when the item was built and the difference from it to the target;
    they hold the same values after any number of later ticks and of
    writes to the colour of any material. *)
Theorem item_colors_are_snapshots (h0 : Heap) (event : MaterialColorSwapEventData)
        (items : list AnimatableColorItem) (h1 h : Heap)
        (item : AnimatableColorItem) :
  heap_wf h0 ->
  getAnimatableItems event h0 = (items, h1) ->
  rtc (later_step items) h1 h ->
  item ∈ items ->
  exists start,
    materialColor h0 (material_ item) = Some start /\
    colors h !! startColor item = Some start /\
    colors h !! deltaColor item = Some (minus (targetColor event) start).
Proof.
  intros Hwf Hget Hsteps Hin.
  destruct (batch_facts _ _ _ _ _ _ Hwf Hget Hsteps Hin)
    as (mat & c & Hlk & Hc & _ & Hcol & _ & _ & Hit).
  destruct Hit as (mat' & c' & Hlk' & Hc' & _ & _ & Hsv & Hdv).
  assert (c' = c) as -> by congruence.
  exists (snapshot h0 c). auto.
Qed.

(** A tick writes the interpolation from the snapshot. *)
Lemma doProgress_interpolates_from_snapshot_aux
      (h0 : Heap) (event : MaterialColorSwapEventData)
      (items : list AnimatableColorItem) (h1 h : Heap)
      (item : AnimatableColorItem) (p : number) :
  heap_wf h0 ->
  getAnimatableItems event h0 = (items, h1) ->
  rtc (later_step items) h1 h ->
  item ∈ items ->
  exists start,
    materialColor h0 (material_ item) = Some start /\
    materialColor (doProgress items p h) (material_ item)
    = Some (interpolate start (minus (targetColor event) start) p).
Proof.
  intros Hwf Hget Hsteps Hin.
  destruct (batch_facts _ _ _ _ _ _ Hwf Hget Hsteps Hin)
    as (mat & c & Hlk & Hc & Hlt & Hcol & Hst & Hgood & _).
  exists (snapshot h0 c). split; [assumption|].
  unfold materialColor.
  destruct (stable_doProgress h0 Hwf h1 items p h Hst) as (-> & _).
  rewrite Hlk. cbn. rewrite Hc. cbn.
  apply (doProgress_applied h0 (targetColor event) Hwf h1); try assumption.
  right. apply Exists_exists. exists item. eauto.
Qed.

(** C1 (as amended). On a tick with progress [p], whatever ticks and
    writes came before, the colour of the material of every item becomes
    [start + p * delta] per channel, with [start] the colour the material
    had when the item was built and [delta = target - start]; with
    [p = 1] that is [start + delta]. *)
Theorem doProgress_interpolates_from_snapshot
        (h0 : Heap) (event : MaterialColorSwapEventData)
        (items : list AnimatableColorItem) (h1 h : Heap)
        (item : AnimatableColorItem) (p : number) :
  heap_wf h0 ->
  getAnimatableItems event h0 = (items, h1) ->
  rtc (later_step items) h1 h ->
  item ∈ items ->
  exists start,
    materialColor h0 (material_ item) = Some start /\
    materialColor (doProgress items p h) (material_ item)
    = Some (interpolate start (minus (targetColor event) start) p) /\
    materialColor (doProgress items 1%float h) (material_ item)
    = Some (plus start (minus (targetColor event) start)).
Proof.
  intros Hwf Hget Hsteps Hin.
  destruct (doProgress_interpolates_from_snapshot_aux
              h0 event items h1 h item p Hwf Hget Hsteps Hin)
    as (start & Hs & Hp).
  destruct (doProgress_interpolates_from_snapshot_aux
              h0 event items h1 h item 1%float Hwf Hget Hsteps Hin)
    as (start' & Hs' & Hp').
  assert (start' = start) as -> by congruence.
  exists start. rewrite <- interpolate_one. auto.
Qed.

(** C2 (as amended). With a duration that is not positive, [changeColorLinearly]
    returns the heap on which progress 1 has been applied to the whole
    batch, and has called neither [createAnimation] nor
    [requestAnimationFrame]; the colour of the material of every item is
    then the interpolation at progress 1. *)
Theorem changeColorLinearly_instant (event : MaterialColorSwapEventData)
        (duration : number) (h : Heap) :
  (duration <=? 0)%float = true ->
  heap_wf h ->
  changeColorLinearly event duration h
  = (doProgress (getAnimatableItems event h).1 1%float
                (getAnimatableItems event h).2, [])
  /\ forall item,
      item ∈ (getAnimatableItems event h).1 ->
      exists start,
        materialColor h (material_ item) = Some start /\
        materialColor (changeColorLinearly event duration h).1 (material_ item)
        = Some (interpolate start (minus (targetColor event) start) 1%float).
Proof.
  intros Hd Hwf.
  assert (changeColorLinearly event duration h
          = (doProgress (getAnimatableItems event h).1 1%float
                        (getAnimatableItems event h).2, [])) as Heq.
  { unfold changeColorLinearly.
    destruct (getAnimatableItems event h) as [items h1]. by rewrite Hd. }
  split; [exact Heq|].
  intros item Hin. rewrite Heq. cbn [fst].
  destruct (getAnimatableItems event h) as [items h1] eqn:Hget.
  destruct (doProgress_interpolates_from_snapshot_aux
              h event items h1 h1 item 1%float Hwf Hget (rtc_refl _ _) Hin)
    as (start & Hs & Hp).
  eauto.
Qed.

(** *** Which materials become items *)

Lemma traverse_unfold (o : Object3D) :
  traverse o = o :: flat_map traverse (children o).
Proof. by destruct o. Qed.

Lemma traverse_descendant (root o : Object3D) :
  In o (traverse root) <-> descendant root o.
Proof.
  split.
  - revert o. induction root as [k cast recv cs IH] using Object3D_ind.
    intros o. rewrite traverse_unfold. cbn [children].
    intros [<-|Hin]; [constructor|].
    apply in_flat_map in Hin as (c & Hc & Ho).
    apply (descendant_child _ c); [exact Hc|].
    rewrite List.Forall_forall in IH. by apply IH.
  - induction 1 as [root|root c o Hc _ IH]; rewrite traverse_unfold.
    + by left.
    + right. apply in_flat_map. eauto.
Qed.

Section Collect.
Context (target : Color) (h : Heap).

(** The test of [tryAddAnimatableItems], on a material of [h]. *)
Definition qualifies (m : MaterialRef) : bool :=
  isColorMaterial (Three.materials h !!! m).

Definition collected (acc : list AnimatableColorItem * Heap)
           (ms : list MaterialRef) (acc' : list AnimatableColorItem * Heap) :=
  Three.materials acc'.2 = Three.materials h /\
  material_ <$> acc'.1 = (material_ <$> acc.1) ++ List.filter qualifies ms.

Lemma collected_tryAddAnimatableItem m acc :
  Three.materials acc.2 = Three.materials h ->
  collected acc [m] (tryAddAnimatableItem target acc m).
Proof.
  destruct acc as [its h']. cbn. intros Hm.
  unfold collected, tryAddAnimatableItem. cbn [List.filter].
  unfold qualifies, isColorMaterial. rewrite <- Hm.
  destruct (color (Three.materials h' !!! m)) as [c|]; cbn.
  - split; [done|]. by rewrite fmap_app.
  - split; [done|]. by rewrite app_nil_r.
Qed.

Lemma collected_tryAddAnimatableItems ms acc :
  Three.materials acc.2 = Three.materials h ->
  collected acc ms (tryAddAnimatableItems ms target acc).
Proof.
  unfold tryAddAnimatableItems. revert acc.
  induction ms as [|m ms IH]; intros acc Hm; cbn [fold_left].
  - split; [exact Hm|]. by rewrite app_nil_r.
  - destruct (collected_tryAddAnimatableItem m acc Hm) as [Hm1 Hi1].
    destruct (IH _ Hm1) as [Hm2 Hi2].
    split; [exact Hm2|].
    rewrite Hi2, Hi1, <- app_assoc, <- List.filter_app. reflexivity.
Qed.

Lemma collected_visit o acc :
  Three.materials acc.2 = Three.materials h ->
  collected acc (if isMesh o then nodeMaterials o else []) (visit target acc o).
Proof.
  intros Hm. unfold visit, isMesh, nodeMaterials, material.
  destruct (kind o) as [[m|ms|k]|];
    [by apply collected_tryAddAnimatableItems ..| |];
    (split; [exact Hm|]; by rewrite app_nil_r).
Qed.

Lemma collected_visits os acc :
  Three.materials acc.2 = Three.materials h ->
  collected acc (flat_map nodeMaterials (List.filter isMesh os))
            (fold_left (visit target) os acc).
Proof.
  revert acc. induction os as [|o os IH]; intros acc Hm; cbn.
  - split; [exact Hm|]. by rewrite app_nil_r.
  - destruct (collected_visit o acc Hm) as [Hm1 Hi1].
    destruct (IH _ Hm1) as [Hm2 Hi2].
    split; [exact Hm2|]. rewrite Hi2, Hi1, <- app_assoc. f_equal.
    destruct (isMesh o); cbn; [|reflexivity].
    by rewrite List.filter_app.
Qed.

End Collect.

(** C6. The materials of the items are, in order, the explicit materials
    of the event followed by the materials of the mesh nodes among the
    nodes [traverse] visits, restricted to those that pass
    [isColorMaterial]; the nodes visited are exactly the root and the nodes
    below it.  Nothing else is added, and the function always returns. *)
Theorem getAnimatableItems_collects_color_materials
        (event : MaterialColorSwapEventData) (h : Heap) :
  material_ <$> (getAnimatableItems event h).1
  = List.filter (qualifies h)
      (default [] (materials_ event)
       ++ flat_map nodeMaterials
            (List.filter isMesh (from_option traverse [] (rootObject event))))
  /\ forall root o,
      rootObject event = Some root ->
      (In o (traverse root) <-> descendant root o).
Proof.
  split; [|intros root o _; apply traverse_descendant].
  unfold getAnimatableItems.
  set (acc1 := match materials_ event with
               | Some ms => tryAddAnimatableItems ms (targetColor event) ([], h)
               | Datatypes.None => ([], h)
               end).
  assert (collected h ([], h) (default [] (materials_ event)) acc1) as [Hm1 Hi1].
  { subst acc1. destruct (materials_ event) as [ms|]; cbn.
    - by apply collected_tryAddAnimatableItems.
    - by split. }
  rewrite List.filter_app.
  destruct (rootObject event) as [root|]; cbn [from_option].
  - destruct (collected_visits (targetColor event) h (traverse root) acc1 Hm1)
      as [_ Hi2].
    by rewrite Hi2, Hi1.
  - cbn. by rewrite Hi1, app_nil_r.
Qed.

(** *** A white material fading to grey *)

Definition white : Color := mkColor 1%float 1%float 1%float.

Definition paint : Material :=
  mkMaterial "paint" (Some 0) FrontSide Datatypes.None Datatypes.None
             Datatypes.None Datatypes.None false.

(** One colour object (white) and one material that shows it. *)
Definition showroom : Heap := mkHeap [white] [paint].

Definition chair : ProductItem Heap := mkProductItem 1 "chair" [].

(** Fade the material to the grey (0.5, 0.5, 0.5). *)
Definition toHalfGrey : MaterialColorSwapEventData :=
  mkColorSwap chair (Some [0]) Datatypes.None
              (mkColor 0.5%float 0.5%float 0.5%float)
              MaterialAnimationType.Linear.

(** Fade the material to the grey (0.1, 0.1, 0.1): the binary64 number
    nearest to one tenth. *)
Definition tenth : number := 0x1.999999999999ap-4%float.

Definition toDarkGrey : MaterialColorSwapEventData :=
  mkColorSwap chair (Some [0]) Datatypes.None (mkColor tenth tenth tenth)
              MaterialAnimationType.None.

Definition theItem : AnimatableColorItem := mkItem 2 1 0.

(** A black material and the target
    (1, 0, 0); half way the colour is (0.5, 0, 0), at the end (1, 0, 0). *)
Definition blackRoom : Heap :=
  mkHeap [mkColor 0%float 0%float 0%float] [paint].

Definition toRed : MaterialColorSwapEventData :=
  mkColorSwap chair (Some [0]) Datatypes.None
              (mkColor 1%float 0%float 0%float)
              MaterialAnimationType.Linear.

Example black_to_red :
  getAnimatableItems toRed blackRoom
  = ([theItem], (getAnimatableItems toRed blackRoom).2) /\
  materialColor (doProgress [theItem] 0.5%float
                   (getAnimatableItems toRed blackRoom).2) 0
  = Some (mkColor 0.5%float 0%float 0%float) /\
  materialColor (doProgress [theItem] 1%float
                   (doProgress [theItem] 0.5%float
                      (getAnimatableItems toRed blackRoom).2)) 0
  = Some (mkColor 1%float 0%float 0%float) /\
  (changeColorLinearly toRed 250%float blackRoom).2
  = [CreateAnimation (mkAnimation chair ColorChange 250%float [theItem]);
     RequestAnimationFrame (mkAnimation chair ColorChange 250%float [theItem])].
Proof. repeat split; reflexivity. Qed.

Lemma item_colors_are_snapshots_witness :
  exists start,
    materialColor showroom 0 = Some start /\
    colors (doProgress [theItem] 0.25%float
              (getAnimatableItems toHalfGrey showroom).2) !! 2 = Some start /\
    colors (doProgress [theItem] 0.25%float
              (getAnimatableItems toHalfGrey showroom).2) !! 1
    = Some (minus (targetColor toHalfGrey) start).
Proof.
  apply (item_colors_are_snapshots
           showroom toHalfGrey [theItem]
           (getAnimatableItems toHalfGrey showroom).2 _ theItem).
  - reflexivity.
  - reflexivity.
  - apply rtc_once, tick.
  - apply list_elem_of_here.
Defined.

Lemma doProgress_interpolates_from_snapshot_witness :
  exists start,
    materialColor showroom 0 = Some start /\
    materialColor (doProgress [theItem] 0.25%float
                     (doProgress [theItem] 0.75%float
                        (getAnimatableItems toHalfGrey showroom).2)) 0
    = Some (interpolate start (minus (targetColor toHalfGrey) start) 0.25%float) /\
    materialColor (doProgress [theItem] 1%float
                     (doProgress [theItem] 0.75%float
                        (getAnimatableItems toHalfGrey showroom).2)) 0
    = Some (plus start (minus (targetColor toHalfGrey) start)).
Proof.
  apply (doProgress_interpolates_from_snapshot
           showroom toHalfGrey [theItem]
           (getAnimatableItems toHalfGrey showroom).2 _ theItem 0.25%float).
  - reflexivity.
  - reflexivity.
  - apply rtc_once, tick.
  - apply list_elem_of_here.
Defined.

(** C1, as stated, fails: from white to the grey (0.1, 0.1, 0.1) the
    colour applied at progress 1 is [1 + 1 * (0.1 - 1)], which in binary64
    is 0.09999999999999998 and not 0.1. *)
Lemma doProgress_one_misses_target :
  heap_wf showroom /\
  getAnimatableItems toDarkGrey showroom
  = ([theItem], (getAnimatableItems toDarkGrey showroom).2) /\
  materialColor
    (doProgress [theItem] 1%float (getAnimatableItems toDarkGrey showroom).2) 0
  = Some (mkColor 0x1.9999999999998p-4%float 0x1.9999999999998p-4%float
                  0x1.9999999999998p-4%float) /\
  materialColor
    (doProgress [theItem] 1%float (getAnimatableItems toDarkGrey showroom).2) 0
  <> Some (targetColor toDarkGrey).
Proof.
  split; [reflexivity|]. split; [reflexivity|]. split; [reflexivity|].
  intros H.
  apply (f_equal (fun o => match o with
                           | Some c => Prim2SF (r c)
                           | Datatypes.None => S754_nan
                           end)) in H.
  vm_compute in H. discriminate H.
Qed.

Lemma changeColorLinearly_instant_witness :
  changeColorLinearly toDarkGrey 0%float showroom
  = (doProgress (getAnimatableItems toDarkGrey showroom).1 1%float
                (getAnimatableItems toDarkGrey showroom).2, [])
  /\ forall item,
      item ∈ (getAnimatableItems toDarkGrey showroom).1 ->
      exists start,
        materialColor showroom (material_ item) = Some start /\
        materialColor (changeColorLinearly toDarkGrey 0%float showroom).1
                      (material_ item)
        = Some (interpolate start (minus (targetColor toDarkGrey) start) 1%float).
Proof.
  apply (changeColorLinearly_instant toDarkGrey 0%float showroom).
  - reflexivity.
  - reflexivity.
Defined.

(** C2, as stated, fails in its gloss "the target color": with duration 0,
    a white material asked to become the grey (0.1, 0.1, 0.1) is left at
    0.09999999999999998 per channel; no host call is made. *)
Lemma changeColorLinearly_instant_misses_target :
  (0 <=? 0)%float = true /\
  (changeColorLinearly toDarkGrey 0%float showroom).2 = [] /\
  materialColor (changeColorLinearly toDarkGrey 0%float showroom).1 0
  = Some (mkColor 0x1.9999999999998p-4%float 0x1.9999999999998p-4%float
                  0x1.9999999999998p-4%float) /\
  materialColor (changeColorLinearly toDarkGrey 0%float showroom).1 0
  <> Some (targetColor toDarkGrey).
Proof.
  split; [reflexivity|]. split; [reflexivity|]. split; [reflexivity|].
  intros H.
  apply (f_equal (fun o => match o with
                           | Some c => Prim2SF (g c)
                           | Datatypes.None => S754_nan
                           end)) in H.
  vm_compute in H. discriminate H.
Qed.

End MaterialColorChangerProofs.

Module MeshLoaderProofs.
Import MeshLoader.

(** *** Dispatch on the file extension *)

Lemma loadMesh_obj ld descriptor h :
  fileExtension descriptor = "obj"%string ->
  loadMesh ld descriptor h
  = await (loadObj ld (filename descriptor) (materialInfo descriptor) h)
          (fun '(o, h') => Resolved (mkModelLoaded (Some o) descriptor, h')).
Proof. intros Hext. unfold loadMesh. by rewrite Hext. Qed.

Lemma loadMesh_gltf ld descriptor h :
  fileExtension descriptor = "gltf"%string ->
  loadMesh ld descriptor h
  = await (loadGlTF ld (filename descriptor) (materialInfo descriptor) h)
          (fun '(o, h') => Resolved (mkModelLoaded (Some o) descriptor, h')).
Proof. intros Hext. unfold loadMesh. by rewrite Hext. Qed.

Lemma loadMesh_other ld descriptor h :
  fileExtension descriptor <> "obj"%string ->
  fileExtension descriptor <> "gltf"%string ->
  loadMesh ld descriptor h = Resolved (mkModelLoaded None descriptor, h).
Proof.
  intros Hobj Hgltf. unfold loadMesh.
  apply String.eqb_neq in Hobj, Hgltf. by rewrite Hobj, Hgltf.
Qed.

(** C4. A descriptor whose lower-case extension is neither [obj] nor
    [gltf] is answered by a resolved promise whose [object] is absent; the
    heap is untouched. *)
Theorem loadMesh_unknown_extension_resolves_without_object
        (ld : Loaders) (descriptor : Model3D) (h : Heap) :
  fileExtension descriptor <> "obj"%string ->
  fileExtension descriptor <> "gltf"%string ->
  exists result,
    loadMesh ld descriptor h = Resolved (result, h)
    /\ object result = None /\ model result = descriptor.
Proof.
  intros Hobj Hgltf. exists (mkModelLoaded None descriptor).
  split; [by apply loadMesh_other|by split].
Qed.

Definition noLoaders : Loaders :=
  mkLoaders (fun _ _ => None) (fun _ _ => None) (fun c h => (c, h))
            (fun _ _ => None) (fun _ => Pending).

Definition stlModel : Model3D :=
  mkModel3D "assets/models/Chair.v2.STL"
            (mkMaterialInfo None (Some "wood.png"%string) None false).

Lemma loadMesh_unknown_extension_witness :
  fileExtension stlModel = "stl"%string /\
  exists result,
    loadMesh noLoaders stlModel (mkHeap [] []) = Resolved (result, mkHeap [] [])
    /\ object result = None /\ model result = stlModel.
Proof.
  split; [reflexivity|].
  apply (loadMesh_unknown_extension_resolves_without_object
           noLoaders stlModel (mkHeap [] [])).
  - discriminate.
  - discriminate.
Defined.

(** C10. The promise of [loadMesh] is never rejected, whatever the
    loaders do; when it resolves, its [model] is the descriptor given; and
    it resolves, with the loaded object, as soon as the loading for the
    format resolves. *)
Theorem loadMesh_never_rejects (ld : Loaders) (descriptor : Model3D) (h : Heap) :
  loadMesh ld descriptor h <> Rejected
  /\ (forall result h',
        loadMesh ld descriptor h = Resolved (result, h') ->
        model result = descriptor)
  /\ (forall o h',
        fileExtension descriptor = "obj"%string ->
        loadObj ld (filename descriptor) (materialInfo descriptor) h
        = Resolved (o, h') ->
        loadMesh ld descriptor h
        = Resolved (mkModelLoaded (Some o) descriptor, h'))
  /\ (forall o h',
        fileExtension descriptor = "gltf"%string ->
        loadGlTF ld (filename descriptor) (materialInfo descriptor) h
        = Resolved (o, h') ->
        loadMesh ld descriptor h
        = Resolved (mkModelLoaded (Some o) descriptor, h')).
Proof.
  split; [|split; [|split]].
  - unfold loadMesh.
    destruct (String.eqb (fileExtension descriptor) "obj");
      [|destruct (String.eqb (fileExtension descriptor) "gltf")].
    + destruct (loadObj ld (filename descriptor) (materialInfo descriptor) h)
        as [[o h1]| |]; discriminate.
    + destruct (loadGlTF ld (filename descriptor) (materialInfo descriptor) h)
        as [[o h1]| |]; discriminate.
    + discriminate.
  - intros result h'. unfold loadMesh.
    destruct (String.eqb (fileExtension descriptor) "obj");
      [|destruct (String.eqb (fileExtension descriptor) "gltf")].
    + destruct (loadObj ld (filename descriptor) (materialInfo descriptor) h)
        as [[o h1]| |]; cbn; [|discriminate..].
      by intros [= <- _].
    + destruct (loadGlTF ld (filename descriptor) (materialInfo descriptor) h)
        as [[o h1]| |]; cbn; [|discriminate..].
      by intros [= <- _].
    + by intros [= <- _].
  - intros o h' Hext Hload. by rewrite (loadMesh_obj _ _ _ Hext), Hload.
  - intros o h' Hext Hload. by rewrite (loadMesh_gltf _ _ _ Hext), Hload.
Qed.

(** *** Shadow flags *)

Lemma setReceiveShadow_unfold (o : Object3D) :
  setReceiveShadow o
  = mkObject3D (kind o) true true (setReceiveShadow <$> children o).
Proof. by destruct o. Qed.

Lemma material_setReceiveShadow (o : Object3D) :
  material (setReceiveShadow o) = material o.
Proof. by destruct o. Qed.

Lemma descendant_inv (root o : Object3D) :
  descendant root o ->
  o = root \/ exists c, In c (children root) /\ descendant c o.
Proof. destruct 1; eauto. Qed.

(** Every node at or below a node that went through the pass has both
    flags set. *)
Lemma setReceiveShadow_descendants (o d : Object3D) :
  descendant (setReceiveShadow o) d ->
  castShadow d = true /\ receiveShadow d = true.
Proof.
  revert d. induction o as [k cast recv cs IH] using Object3D_ind.
  intros d Hd. rewrite setReceiveShadow_unfold in Hd. cbn [kind children] in Hd.
  apply descendant_inv in Hd as [->|(c & Hc & Hd)]; [by split|].
  cbn [children] in Hc.
  apply list_elem_of_In, list_elem_of_fmap in Hc as (c0 & -> & Hc0).
  rewrite List.Forall_forall in IH.
  apply (IH c0); [by apply list_elem_of_In|exact Hd].
Qed.

Lemma flatten_flags (scenes : list Object3D) (root : Object3D) :
  let root' := fold_left (fun root scene => add root (children scene))
                         scenes root in
  castShadow root' = castShadow root /\ receiveShadow root' = receiveShadow root.
Proof.
  revert root. induction scenes as [|scene scenes IH]; intros root; cbn.
  - by split.
  - destruct (IH (add root (children scene))) as [-> ->]. by split.
Qed.

(** What [loadObj] and [loadGlTF] deliver, as far as the nodes go. *)
Lemma loadObj_Resolved ld file mi h root h' :
  loadObj ld file mi h = Resolved (root, h') ->
  exists group h1 group',
    objLoader_load ld file h = Some (group, h1) /\
    loadMaterial ld group mi h1 = Resolved (group', h') /\
    root = setReceiveShadow group'.
Proof.
  unfold loadObj.
  destruct (objLoader_load ld file h) as [[group h1]|]; [|discriminate].
  destruct (loadMaterial ld group mi h1) as [[group' h2]| |] eqn:Hmat;
    cbn; [|discriminate..].
  intros [= <- <-]. exists group, h1, group'. by repeat split.
Qed.

Lemma loadGlTF_Resolved ld file mi h root h' :
  loadGlTF ld file mi h = Resolved (root, h') ->
  exists gltfObject h1 texture,
    gltfLoader_load ld file h = Some (gltfObject, h1) /\
    loadEnvironment ld environmentMapUrl = Resolved texture /\
    root = withChildren
             (fold_left (fun root scene => add root (children scene))
                        (scenes gltfObject) newGroup)
             (setReceiveShadows
                (children (fold_left (fun root scene => add root (children scene))
                                     (scenes gltfObject) newGroup))).
Proof.
  unfold loadGlTF.
  destruct (gltfLoader_load ld file h) as [[gltfObject h1]|]; [|discriminate].
  destruct (loadEnvironment ld environmentMapUrl) as [texture| |] eqn:Henv;
    cbn; [|discriminate..].
  intros [= <- _]. exists gltfObject, h1, texture. by repeat split.
Qed.

(** C7 (as amended). In what [loadMesh] delivers for an [obj] file, the
    root and every node below it cast and receive shadows.  In what it
    delivers for a [gltf] file, every node below the root does; the root,
    the container the loader makes for the scenes, has the flags of a new
    [Group]: both off. *)
Theorem loadMesh_shadow_flags (ld : Loaders) (descriptor : Model3D) (h : Heap)
        (result : ModelLoadedEventData) (h' : Heap) (root : Object3D) :
  loadMesh ld descriptor h = Resolved (result, h') ->
  object result = Some root ->
  (fileExtension descriptor = "obj"%string ->
   forall o, descendant root o ->
             castShadow o = true /\ receiveShadow o = true)
  /\ (fileExtension descriptor = "gltf"%string ->
      (castShadow root = false /\ receiveShadow root = false) /\
      forall c o, In c (children root) -> descendant c o ->
                  castShadow o = true /\ receiveShadow o = true).
Proof.
  intros Hload Hroot. split; intros Hext.
  - rewrite (loadMesh_obj _ _ _ Hext) in Hload.
    destruct (loadObj ld (filename descriptor) (materialInfo descriptor) h)
      as [[root' h1]| |] eqn:Hobj; cbn in Hload; [|discriminate..].
    injection Hload as <- <-. cbn in Hroot. injection Hroot as ->.
    apply loadObj_Resolved in Hobj as (group & h0 & group' & _ & _ & ->).
    intros o. apply setReceiveShadow_descendants.
  - rewrite (loadMesh_gltf _ _ _ Hext) in Hload.
    destruct (loadGlTF ld (filename descriptor) (materialInfo descriptor) h)
      as [[root' h1]| |] eqn:Hgltf; cbn in Hload; [|discriminate..].
    injection Hload as <- <-. cbn in Hroot. injection Hroot as ->.
    apply loadGlTF_Resolved in Hgltf as (gltfObject & h0 & texture & _ & _ & ->).
    split.
    + apply (flatten_flags (scenes gltfObject) newGroup).
    + intros c o Hc. cbn [withChildren children] in Hc.
      unfold setReceiveShadows in Hc.
      apply list_elem_of_In, list_elem_of_fmap in Hc as (c0 & -> & _).
      apply setReceiveShadow_descendants.
Qed.

(** *** Materials from raw textures *)

(** The backface pass changes nothing but [side]. *)
Definition textures_kept (h h' : Heap) : Prop :=
  length (Three.materials h') = length (Three.materials h) /\
  forall m mat,
    Three.materials h !! m = Some mat ->
    exists mat',
      Three.materials h' !! m = Some mat' /\
      map mat' = map mat /\ normalMap mat' = normalMap mat /\
      name mat' = name mat.

Lemma textures_kept_refl h : textures_kept h h.
Proof. split; eauto. Qed.

Lemma textures_kept_trans h1 h2 h3 :
  textures_kept h1 h2 -> textures_kept h2 h3 -> textures_kept h1 h3.
Proof.
  intros [Hl12 H12] [Hl23 H23]. split; [congruence|].
  intros m mat Hm.
  destruct (H12 _ _ Hm) as (mat2 & Hm2 & ? & ? & ?).
  destruct (H23 _ _ Hm2) as (mat3 & Hm3 & ? & ? & ?).
  exists mat3. repeat split; congruence.
Qed.

Lemma textures_kept_setSide v m h :
  textures_kept h (updateMaterial (setSide v) m h).
Proof.
  split; cbn; [by rewrite length_alter|].
  intros m' mat Hm'. destruct (decide (m = m')) as [->|Hne].
  - rewrite list_lookup_alter_eq, Hm'. cbn. eauto.
  - rewrite list_lookup_alter_ne by assumption. eauto.
Qed.

Lemma textures_kept_fold (f : Object3D -> Heap -> Heap) (cs : list Object3D) :
  List.Forall (fun c => forall h, textures_kept h (f c h)) cs ->
  forall h, textures_kept h (fold_left (fun h c => f c h) cs h).
Proof.
  induction 1 as [|c cs Hc _ IH]; intros h; cbn.
  - apply textures_kept_refl.
  - eapply textures_kept_trans; [apply Hc|apply IH].
Qed.

Lemma trySetBackfaceRendering1_unfold (o : Object3D) (h : Heap) :
  trySetBackfaceRendering1 o h
  = fold_left (fun h c => trySetBackfaceRendering1 c h) (children o)
      match material o with
      | Some (Single m) => updateMaterial (setSide DoubleSide) m h
      | Some (Multi _) => h
      | Some (Foreign _) => h
      | None => h
      end.
Proof. by destruct o. Qed.

Lemma textures_kept_backface1 (o : Object3D) :
  forall h, textures_kept h (trySetBackfaceRendering1 o h).
Proof.
  induction o as [k cast recv cs IH] using Object3D_ind. intros h.
  rewrite trySetBackfaceRendering1_unfold. cbn [children].
  eapply textures_kept_trans; [|by apply textures_kept_fold].
  destruct (material _) as [[m|ms|key]|];
    auto using textures_kept_refl, textures_kept_setSide.
Qed.

Lemma textures_kept_backface (cs : list Object3D) (h : Heap) :
  textures_kept h (trySetBackfaceRendering cs h).
Proof.
  apply textures_kept_fold, List.Forall_forall.
  intros c _. apply textures_kept_backface1.
Qed.

(** The raw-texture branch of [loadMaterial]. *)
Lemma loadMaterial_raw_textures ld object mi h :
  truthy (mtl mi) = false ->
  exists h',
    loadMaterial ld object mi h
    = Resolved (withChildren object
                  (setMaterial (length (Three.materials h)) <$> children object),
                h') /\
    length (Three.materials h') = S (length (Three.materials h)) /\
    exists mat,
      Three.materials h' !! length (Three.materials h) = Some mat /\
      map mat = Some (mkTexture (diffuseTexture mi)) /\
      normalMap mat = (if truthy (normalTexture mi)
                       then Some (mkTexture (normalTexture mi)) else None).
Proof.
  intros Hraw. unfold loadMaterial. rewrite Hraw.
  unfold newMeshPhongMaterial, newColor. cbn [fst snd Three.materials colors].
  set (m := length (Three.materials h)).
  set (object' := withChildren object (setMaterial m <$> children object)).
  set (h1 := mkHeap (colors h ++ [mkColor 1%float 1%float 1%float])
                    (Three.materials h
                     ++ [mkMaterial EmptyString (Some (length (colors h)))
                                    FrontSide None None None None false])).
  set (h2 := updateMaterial
               (setMap (Some (textureLoader_load (diffuseTexture mi)))) m h1).
  set (h3 := if truthy (normalTexture mi)
             then updateMaterial
                    (setNormalMap (Some (textureLoader_load (normalTexture mi))))
                    m h2
             else h2).
  assert (length (Three.materials h3) = S m /\
          exists mat, Three.materials h3 !! m = Some mat /\
                      map mat = Some (mkTexture (diffuseTexture mi)) /\
                      normalMap mat = (if truthy (normalTexture mi)
                                       then Some (mkTexture (normalTexture mi))
                                       else None)) as (Hlen & mat & Hm & Hmap & Hnm).
  { assert (Three.materials h2 !! m
            = Some (setMap (Some (mkTexture (diffuseTexture mi)))
                      (mkMaterial EmptyString (Some (length (colors h)))
                                  FrontSide None None None None false))) as Hh2.
    { subst h2. cbn. rewrite list_lookup_alter_eq.
      subst m. by rewrite list_lookup_middle. }
    assert (length (Three.materials h2) = S m) as Hl2.
    { subst h2. cbn. rewrite length_alter, length_app. cbn. lia. }
    subst h3. destruct (truthy (normalTexture mi)).
    - unfold updateMaterial at 1 2. cbn [Three.materials].
      split; [by rewrite length_alter|].
      rewrite list_lookup_alter_eq, Hh2. cbn. eauto.
    - split; [exact Hl2|]. rewrite Hh2. eauto. }
  exists (if renderBackface mi then trySetBackfaceRendering [object'] h3 else h3).
  split; [reflexivity|].
  destruct (renderBackface mi); [|eauto].
  destruct (textures_kept_backface [object'] h3) as [Hl Hk].
  split; [congruence|].
  destruct (Hk _ _ Hm) as (mat' & Hm' & ? & ? & _).
  exists mat'. repeat split; congruence.
Qed.

Lemma material_setMaterial (m : MaterialRef) (o : Object3D) :
  material (setMaterial m o) = Some (Single m).
Proof. unfold setMaterial, material. by destruct (kind o). Qed.

(** C5. For an [obj] file with raw textures, once the geometry is loaded
    the promise resolves; exactly one material has been created, from the
    diffuse texture and, when given, the normal texture; and every child
    of the delivered object refers to that one material. *)
Theorem loadMesh_raw_textures_share_one_material
        (ld : Loaders) (descriptor : Model3D) (h : Heap)
        (group : Object3D) (h1 : Heap) :
  fileExtension descriptor = "obj"%string ->
  truthy (mtl (materialInfo descriptor)) = false ->
  objLoader_load ld (filename descriptor) h = Some (group, h1) ->
  exists root h' shared,
    loadMesh ld descriptor h
    = Resolved (mkModelLoaded (Some root) descriptor, h') /\
    length (children root) = length (children group) /\
    (forall child, In child (children root) ->
                   material child = Some (Single shared)) /\
    length (Three.materials h') = S (length (Three.materials h1)) /\
    shared = length (Three.materials h1) /\
    exists mat,
      Three.materials h' !! shared = Some mat /\
      map mat = Some (mkTexture (diffuseTexture (materialInfo descriptor))) /\
      normalMap mat
      = (if truthy (normalTexture (materialInfo descriptor))
         then Some (mkTexture (normalTexture (materialInfo descriptor)))
         else None).
Proof.
  intros Hext Hraw Hobj.
  destruct (loadMaterial_raw_textures ld group (materialInfo descriptor) h1 Hraw)
    as (h' & Hmat & Hlen & Hnew).
  exists (setReceiveShadow
            (withChildren group
               (setMaterial (length (Three.materials h1)) <$> children group))),
         h', (length (Three.materials h1)).
  split; [|split; [|split; [|split; [exact Hlen|split; [reflexivity|exact Hnew]]]]].
  - rewrite (loadMesh_obj _ _ _ Hext). unfold loadObj.
    by rewrite Hobj, Hmat.
  - rewrite setReceiveShadow_unfold. cbn [children withChildren].
    by rewrite !length_fmap.
  - intros child. rewrite setReceiveShadow_unfold. cbn [children withChildren].
    intros Hin.
    apply list_elem_of_In, list_elem_of_fmap in Hin as (c1 & -> & Hin).
    apply list_elem_of_fmap in Hin as (c0 & -> & _).
    by rewrite material_setReceiveShadow, material_setMaterial.
Qed.

(** *** Materials from a material file *)

Lemma material_setMaterialTo (value : MeshMaterial) (o : Object3D) :
  material (setMaterialTo value o) = Some value.
Proof. unfold setMaterialTo, material. by destruct (kind o). Qed.

Lemma isObjectPrototypeMember_false (key : string) :
  key ∉ objectPrototypeMembers -> isObjectPrototypeMember key = false.
Proof.
  intros Hnot. unfold isObjectPrototypeMember.
  destruct (existsb _ _) eqn:Hex; [|done].
  apply existsb_exists in Hex as (k & Hin & Heq).
  apply String.eqb_eq in Heq as <-. by apply list_elem_of_In in Hin.
Qed.

(** What the [forEach] callback leaves as the material of a child. *)
Definition afterLookup (creator : MaterialCreator) (h : Heap)
           (mm : MeshMaterial) : MeshMaterial :=
  match readMaterials creator (materialKey h mm) with
  | Some value => value
  | None => mm
  end.

Lemma assignFromFile_material creator h child mm :
  material child = Some mm ->
  exists child',
    assignFromFile creator h child = Some child' /\
    material child' = Some (afterLookup creator h mm).
Proof.
  intros Hmm. unfold assignFromFile, afterLookup. rewrite Hmm.
  destruct (readMaterials creator (materialKey h mm)) as [value|]; [|eauto].
  eexists. split; [reflexivity|]. apply material_setMaterialTo.
Qed.

Lemma assignFromFile_all creator h (cs : list Object3D) :
  Forall (fun child => is_Some (material child)) cs ->
  exists cs',
    mapM (assignFromFile creator h) cs = Some cs' /\
    Forall2 (fun child child' =>
               forall mm, material child = Some mm ->
                          material child' = Some (afterLookup creator h mm))
            cs cs'.
Proof.
  intros Hall.
  assert (is_Some (mapM (assignFromFile creator h) cs)) as [cs' Hcs'].
  { apply mapM_is_Some. eapply Forall_impl; [exact Hall|].
    intros child [mm Hmm]. cbn.
    destruct (assignFromFile_material creator h child mm Hmm) as (c' & -> & _).
    eauto. }
  exists cs'. split; [exact Hcs'|].
  apply mapM_Some_1 in Hcs'.
  eapply Forall2_impl; [exact Hcs'|].
  intros child child' Hassign mm Hmm. cbn in Hassign.
  destruct (assignFromFile_material creator h child mm Hmm) as (c' & Hc' & Hm').
  congruence.
Qed.

(** The three cases of the lookup the amended claim speaks of. *)
Lemma afterLookup_defined creator h m found :
  creatorMaterials creator !! name (Three.materials h !!! m) = Some found ->
  afterLookup creator h (Single m) = Single found.
Proof.
  intros Hfound. unfold afterLookup, readMaterials, materialKey.
  by rewrite Hfound.
Qed.

Lemma afterLookup_unknown creator h m :
  creatorMaterials creator !! name (Three.materials h !!! m) = None ->
  name (Three.materials h !!! m) ∉ objectPrototypeMembers ->
  afterLookup creator h (Single m) = Single m.
Proof.
  intros Hnone Hnot. unfold afterLookup, readMaterials, materialKey.
  by rewrite Hnone, (isObjectPrototypeMember_false _ Hnot).
Qed.

Lemma afterLookup_array creator h ms :
  afterLookup creator h (Multi ms)
  = match creatorMaterials creator !! "undefined"%string with
    | Some found => Single found
    | None => Multi ms
    end.
Proof.
  unfold afterLookup, readMaterials, materialKey.
  by destruct (creatorMaterials creator !! "undefined"%string).
Qed.

(** C8 (as amended). For an [obj] file with a material file, once the
    geometry and the material file are loaded (the children being nodes
    with a material, as the OBJ loader makes them, and the file defining
    no material called [__proto__]) the promise resolves, and for each
    child: if it has a single material whose name the file defines, its
    material is the one the file defines; if it has a single material
    whose name the file does not define and which is not the name of a
    member of [Object.prototype], it keeps its material; if it has an
    array of materials, the names of these are not looked up: it gets the
    material the file defines under "undefined" when there is one, and
    keeps its array otherwise. *)
Theorem loadMesh_material_file_replaces_matching
        (ld : Loaders) (descriptor : Model3D) (h : Heap)
        (group : Object3D) (h1 : Heap)
        (creator creator' : MaterialCreator) (h2 : Heap) :
  fileExtension descriptor = "obj"%string ->
  truthy (mtl (materialInfo descriptor)) = true ->
  objLoader_load ld (filename descriptor) h = Some (group, h1) ->
  mtlLoader_load ld (default EmptyString (mtl (materialInfo descriptor))) h1
  = Some creator ->
  preload ld creator h1 = (creator', h2) ->
  creatorMaterials creator' !! "__proto__"%string = None ->
  Forall (fun child => is_Some (material child)) (children group) ->
  exists root h',
    loadMesh ld descriptor h
    = Resolved (mkModelLoaded (Some root) descriptor, h') /\
    length (children root) = length (children group) /\
    forall i child,
      children group !! i = Some child ->
      exists child',
        children root !! i = Some child' /\
        (forall m found,
            material child = Some (Single m) ->
            creatorMaterials creator' !! name (Three.materials h2 !!! m)
            = Some found ->
            material child' = Some (Single found)) /\
        (forall m,
            material child = Some (Single m) ->
            creatorMaterials creator' !! name (Three.materials h2 !!! m) = None ->
            name (Three.materials h2 !!! m) ∉ objectPrototypeMembers ->
            material child' = Some (Single m)) /\
        (forall ms,
            material child = Some (Multi ms) ->
            material child'
            = Some match creatorMaterials creator' !! "undefined"%string with
                   | Some found => Single found
                   | None => Multi ms
                   end).
Proof.
  intros Hext Hfile Hobj Hmtl Hpre _ Hall.
  destruct (assignFromFile_all creator' h2 _ Hall) as (cs' & Hcs' & Hrel).
  set (group' := withChildren group cs').
  exists (setReceiveShadow group'),
         (if renderBackface (materialInfo descriptor)
          then trySetBackfaceRendering [group'] h2 else h2).
  split; [|split].
  - rewrite (loadMesh_obj _ _ _ Hext). unfold loadObj. rewrite Hobj.
    unfold loadMaterial. by rewrite Hfile, Hmtl, Hpre, Hcs'.
  - rewrite setReceiveShadow_unfold. subst group'. cbn [children withChildren].
    rewrite length_fmap. symmetry. by eapply Forall2_length.
  - intros i child Hi.
    destruct (Forall2_lookup_l _ _ _ _ _ Hrel Hi) as (c' & Hc' & Hm').
    exists (setReceiveShadow c'). split; [|split; [|split]].
    + rewrite setReceiveShadow_unfold. subst group'. cbn [children withChildren].
      by rewrite list_lookup_fmap, Hc'.
    + intros m found Hm Hfound.
      rewrite material_setReceiveShadow, (Hm' _ Hm).
      by rewrite (afterLookup_defined _ _ _ _ Hfound).
    + intros m Hm Hnone Hnot.
      rewrite material_setReceiveShadow, (Hm' _ Hm).
      by rewrite (afterLookup_unknown _ _ _ Hnone Hnot).
    + intros ms Hms.
      rewrite material_setReceiveShadow, (Hm' _ Hms).
      by rewrite afterLookup_array.
Qed.

(** *** A chair and a sofa *)

Definition oak : Material :=
  mkMaterial "oak" (Some 0) FrontSide None None None None false.

Definition steel : Material :=
  mkMaterial "steel" (Some 0) FrontSide None None None None false.

Definition varnishedOak : Material :=
  mkMaterial "oak" (Some 0) FrontSide (Some (mkTexture (Some "oak.png"%string)))
             None None None false.

(** The heap once the geometry is loaded: the default materials of the
    meshes. *)
Definition workshop : Heap :=
  mkHeap [mkColor 1%float 1%float 1%float] [oak; steel].

Definition screw : Object3D := mkObject3D (Mesh (Single 1)) false false [].
Definition seat : Object3D := mkObject3D (Mesh (Single 0)) false false [screw].
Definition legs : Object3D := mkObject3D (Mesh (Single 1)) false false [].
Definition chairGroup : Object3D := mkObject3D (NotMesh None) false false [seat; legs].
Definition sofaScene : Object3D := mkObject3D (NotMesh None) false false [seat].

Definition emptyCreator : MaterialCreator := mkMaterialCreator ∅.
Definition oakCreator : MaterialCreator :=
  mkMaterialCreator {[ "oak"%string := 2 ]}.

(** Loaders that find every file: the material file defines "oak" only. *)
Definition studio : Loaders :=
  mkLoaders (fun _ _ => Some (chairGroup, workshop))
            (fun _ _ => Some emptyCreator)
            (fun _ h => (oakCreator,
                         mkHeap (colors h) (Three.materials h ++ [varnishedOak])))
            (fun _ h => Some (mkGLTF [sofaScene], workshop))
            (fun _ => Resolved (mkRenderTarget (mkTexture (Some "studio.exr"%string)))).

Definition chairRaw : Model3D :=
  mkModel3D "models/chair.OBJ"
            (mkMaterialInfo None (Some "oak.png"%string)
                            (Some "oak_normal.png"%string) true).

Definition chairMtl : Model3D :=
  mkModel3D "models/chair.obj"
            (mkMaterialInfo (Some "models/chair.mtl"%string) None None false).

Definition sofa : Model3D :=
  mkModel3D "models/sofa.gltf" (mkMaterialInfo None None None false).

(** What a resolved promise carries. *)
Definition delivered (p : Promise (ModelLoadedEventData * Heap))
  : ModelLoadedEventData * Heap :=
  match p with
  | Resolved x => x
  | _ => (mkModelLoaded None sofa, mkHeap [] [])
  end.

Definition deliveredRoot (p : Promise (ModelLoadedEventData * Heap)) : Object3D :=
  default newGroup (object (delivered p).1).

Lemma loadMesh_raw_textures_witness :
  exists root h' shared,
    loadMesh studio chairRaw (mkHeap [] [])
    = Resolved (mkModelLoaded (Some root) chairRaw, h') /\
    length (children root) = length (children chairGroup) /\
    (forall child, In child (children root) ->
                   material child = Some (Single shared)) /\
    length (Three.materials h') = S (length (Three.materials workshop)) /\
    shared = length (Three.materials workshop) /\
    exists mat,
      Three.materials h' !! shared = Some mat /\
      map mat = Some (mkTexture (diffuseTexture (materialInfo chairRaw))) /\
      normalMap mat
      = (if truthy (normalTexture (materialInfo chairRaw))
         then Some (mkTexture (normalTexture (materialInfo chairRaw)))
         else None).
Proof.
  apply (loadMesh_raw_textures_share_one_material
           studio chairRaw (mkHeap [] []) chairGroup workshop).
  - reflexivity.
  - reflexivity.
  - reflexivity.
Defined.

Lemma loadMesh_material_file_witness :
  exists root h',
    loadMesh studio chairMtl (mkHeap [] [])
    = Resolved (mkModelLoaded (Some root) chairMtl, h') /\
    length (children root) = length (children chairGroup) /\
    forall i child,
      children chairGroup !! i = Some child ->
      exists child',
        children root !! i = Some child' /\
        (forall m found,
            material child = Some (Single m) ->
            creatorMaterials oakCreator
              !! name (Three.materials
                         (mkHeap (colors workshop)
                                 (Three.materials workshop ++ [varnishedOak]))
                       !!! m)
            = Some found ->
            material child' = Some (Single found)) /\
        (forall m,
            material child = Some (Single m) ->
            creatorMaterials oakCreator
              !! name (Three.materials
                         (mkHeap (colors workshop)
                                 (Three.materials workshop ++ [varnishedOak]))
                       !!! m)
            = None ->
            name (Three.materials
                    (mkHeap (colors workshop)
                            (Three.materials workshop ++ [varnishedOak]))
                  !!! m)
            ∉ objectPrototypeMembers ->
            material child' = Some (Single m)) /\
        (forall ms,
            material child = Some (Multi ms) ->
            material child'
            = Some match creatorMaterials oakCreator !! "undefined"%string with
                   | Some found => Single found
                   | None => Multi ms
                   end).
Proof.
  apply (loadMesh_material_file_replaces_matching
           studio chairMtl (mkHeap [] []) chairGroup workshop
           emptyCreator oakCreator).
  - reflexivity.
  - reflexivity.
  - reflexivity.
  - reflexivity.
  - reflexivity.
  - reflexivity.
  - repeat (constructor; [eexists; reflexivity|]). constructor.
Defined.

(** The seat, whose material is named "oak", gets the material of the
    file; the legs, named "steel", keep theirs. *)
Example chair_materials_after_loading :
  material <$> children (deliveredRoot (loadMesh studio chairMtl (mkHeap [] [])))
  = [Some (Single 2); Some (Single 1)].
Proof. vm_compute. reflexivity. Qed.

Lemma loadMesh_shadow_flags_witness :
  (fileExtension chairRaw = "obj"%string ->
   forall o, descendant (deliveredRoot (loadMesh studio chairRaw (mkHeap [] []))) o ->
             castShadow o = true /\ receiveShadow o = true)
  /\ (fileExtension chairRaw = "gltf"%string ->
      (castShadow (deliveredRoot (loadMesh studio chairRaw (mkHeap [] []))) = false /\
       receiveShadow (deliveredRoot (loadMesh studio chairRaw (mkHeap [] []))) = false) /\
      forall c o,
        In c (children (deliveredRoot (loadMesh studio chairRaw (mkHeap [] [])))) ->
        descendant c o ->
        castShadow o = true /\ receiveShadow o = true).
Proof.
  apply (loadMesh_shadow_flags
           studio chairRaw (mkHeap [] [])
           (delivered (loadMesh studio chairRaw (mkHeap [] []))).1
           (delivered (loadMesh studio chairRaw (mkHeap [] []))).2).
  - reflexivity.
  - reflexivity.
Defined.

(** C7, as stated, fails for [gltf]: the root of what is delivered is a
    node of the delivered subtree and neither casts nor receives
    shadows. *)
Lemma loadMesh_gltf_root_has_no_shadow_flags :
  exists root h',
    loadMesh studio sofa (mkHeap [] [])
    = Resolved (mkModelLoaded (Some root) sofa, h') /\
    fileExtension sofa = "gltf"%string /\
    descendant root root /\
    castShadow root = false /\ receiveShadow root = false.
Proof.
  eexists _, _. split; [vm_compute; reflexivity|].
  split; [reflexivity|]. split; [constructor|]. split; reflexivity.
Qed.

(** A chair from another workshop: the seat has one material, which the
    modelling tool named "constructor"; the legs have an array of two
    materials, "oak" and "steel".  The material file defines "oak" and
    "steel" and nothing else. *)
Definition oddlyNamed : Material :=
  mkMaterial "constructor" (Some 0) FrontSide None None None None false.

Definition oddWorkshop : Heap :=
  mkHeap [mkColor 1%float 1%float 1%float] [oak; steel; oddlyNamed].

Definition oddSeat : Object3D := mkObject3D (Mesh (Single 2)) false false [].
Definition twoToneLegs : Object3D :=
  mkObject3D (Mesh (Multi [0; 1])) false false [].
Definition oddGroup : Object3D :=
  mkObject3D (NotMesh None) false false [oddSeat; twoToneLegs].

Definition oakAndSteelCreator : MaterialCreator :=
  mkMaterialCreator {[ "oak"%string := 3; "steel"%string := 4 ]}.

Definition oddStudio : Loaders :=
  mkLoaders (fun _ _ => Some (oddGroup, oddWorkshop))
            (fun _ _ => Some emptyCreator)
            (fun _ h => (oakAndSteelCreator,
                         mkHeap (colors h)
                                (Three.materials h ++ [varnishedOak; steel])))
            (gltfLoader_load studio) (loadEnvironment studio).

(** C8, as stated, fails twice on this chair.  The name of the seat's
    material matches nothing in the file, and the seat does not keep its
    material: it is given the member [constructor] of [Object.prototype],
    which is no material.  The names of the legs' materials are both
    defined in the file, and the legs are not given the materials of the
    file: they keep their array. *)
Lemma loadMesh_material_file_misses_names :
  exists root h',
    loadMesh oddStudio chairMtl (mkHeap [] [])
    = Resolved (mkModelLoaded (Some root) chairMtl, h') /\
    material <$> children oddGroup = [Some (Single 2); Some (Multi [0; 1])] /\
    name <$> Three.materials h' !! 2 = Some "constructor"%string /\
    creatorMaterials oakAndSteelCreator !! "constructor"%string = None /\
    name <$> Three.materials h' !! 0 = Some "oak"%string /\
    name <$> Three.materials h' !! 1 = Some "steel"%string /\
    creatorMaterials oakAndSteelCreator !! "oak"%string = Some 3 /\
    creatorMaterials oakAndSteelCreator !! "steel"%string = Some 4 /\
    material <$> children root
    = [Some (Foreign "constructor"); Some (Multi [0; 1])].
Proof.
  eexists _, _. split; [vm_compute; reflexivity|].
  repeat split; vm_compute; reflexivity.
Qed.

End MeshLoaderProofs.

(* ===================================================================== *)
(** * Part III: further properties of the same code *)
(* ===================================================================== *)

Module ProductItemUtilityMore.
Import ProductItemUtility ProductItemUtilityProofs.

Section Sweeps.
Context {W : Type}.
Implicit Types (events : list (ActiveProductItemEvent W)) (w : W).

(** [includes] is membership. *)
Lemma includes_elem_of types t : includes types t = true <-> t ∈ types.
Proof.
  induction types as [|t' types IH]; cbn.
  - split; [discriminate|]. by intros ?%elem_of_nil.
  - destruct (decide (t' = t)) as [->|Hne].
    + split; [intros _; apply list_elem_of_here|done].
    + rewrite IH. split; [by apply list_elem_of_further|].
      intros [?|?]%elem_of_cons; [congruence|done].
Qed.

Lemma includes_app types1 types2 t :
  includes (types1 ++ types2) t = includes types1 t || includes types2 t.
Proof.
  induction types1 as [|t' types1 IH]; cbn; [reflexivity|].
  by destruct (decide (t' = t)).
Qed.

(** What [clearEvents] returns, in one equation. *)
Lemma clearEvents_eq (productItem : ProductItem W) types completeEvent w :
  clearEvents productItem types completeEvent w
  = Some (mkProductItem (id productItem) (name productItem)
                        (kept types (activeEvents productItem)),
          cancelAll completeEvent
                    (cancelled types (activeEvents productItem)) w).
Proof.
  unfold clearEvents. rewrite clearEvents_loop_spec by lia.
  by rewrite take_0, drop_0.
Qed.

Lemma cancelled_kept types events : cancelled types (kept types events) = [].
Proof.
  unfold cancelled, kept.
  induction events as [|e events IH]; cbn; [reflexivity|].
  destruct (includes types (type e)) eqn:He; cbn; [exact IH|].
  by rewrite He.
Qed.

Lemma kept_kept types1 types2 events :
  kept types2 (kept types1 events) = kept (types1 ++ types2) events.
Proof.
  unfold kept.
  induction events as [|e events IH]; cbn; [reflexivity|].
  rewrite includes_app.
  destruct (includes types1 (type e)) eqn:H1; cbn; [exact IH|].
  destruct (includes types2 (type e)); cbn; by rewrite IH.
Qed.

Lemma kept_comm types1 types2 events :
  kept types2 (kept types1 events) = kept types1 (kept types2 events).
Proof.
  unfold kept.
  induction events as [|e events IH]; cbn; [reflexivity|].
  destruct (includes types1 (type e)) eqn:H1,
           (includes types2 (type e)) eqn:H2; cbn;
    rewrite ?H1, ?H2; cbn; by rewrite IH.
Qed.

Lemma kept_cancelled_length types events :
  length (kept types events) + length (cancelled types events) = length events.
Proof.
  unfold kept, cancelled.
  induction events as [|e events IH]; cbn; [reflexivity|].
  destruct (includes types (type e)); cbn; lia.
Qed.

Lemma kept_sublist types events : kept types events `sublist_of` events.
Proof.
  unfold kept.
  induction events as [|e events IH]; cbn; [constructor|].
  destruct (negb _); by constructor.
Qed.

Lemma elem_of_kept types events e :
  e ∈ kept types events <-> e ∈ events /\ type e ∉ types.
Proof.
  unfold kept. split.
  - intros Hin%list_elem_of_In%filter_In. destruct Hin as [Hin Hno].
    split; [by apply list_elem_of_In|].
    intros Hty%includes_elem_of. by rewrite Hty in Hno.
  - intros [Hin Hno]. apply list_elem_of_In, filter_In.
    split; [by apply list_elem_of_In|].
    destruct (includes types (type e)) eqn:Hty; [|done].
    by apply includes_elem_of in Hty.
Qed.

(** X1. Sweeping twice is sweeping once: after [clearEvents], a second
    call with the same categories, whatever its flag, cancels nothing and
    returns the entity and the world as they are. *)
Theorem clearEvents_idempotent (productItem : ProductItem W)
        types completeEvent completeEvent' w :
  exists productItem' w',
    clearEvents productItem types completeEvent w = Some (productItem', w') /\
    clearEvents productItem' types completeEvent' w' = Some (productItem', w').
Proof.
  eexists _, _. split; [apply clearEvents_eq|].
  rewrite clearEvents_eq. cbn [activeEvents id name].
  rewrite cancelled_kept. cbn.
  by rewrite (kept_all _ _ (cancelled_kept _ _)).
Qed.

(** X2. What is left after [clearEvents]: an entry is in the list exactly
    when it was there before and its category is not among [types]; the
    entries left are in their former order; and the entries left and the
    entries cancelled add up to the entries there were. *)
Theorem clearEvents_leaves_the_others (productItem : ProductItem W)
        types completeEvent w :
  exists productItem' w',
    clearEvents productItem types completeEvent w = Some (productItem', w') /\
    (forall e, e ∈ activeEvents productItem'
               <-> e ∈ activeEvents productItem /\ type e ∉ types) /\
    activeEvents productItem' `sublist_of` activeEvents productItem /\
    length (activeEvents productItem')
    + length (cancelled types (activeEvents productItem))
    = length (activeEvents productItem) /\
    id productItem' = id productItem /\ name productItem' = name productItem.
Proof.
  eexists _, _. split; [apply clearEvents_eq|]. cbn [activeEvents id name].
  split; [intros e; apply elem_of_kept|].
  split; [apply kept_sublist|].
  split; [apply kept_cancelled_length|done].
Qed.

(** X3. Sweeps compose: clearing [types1] and then [types2] leaves the
    list that one sweep for both leaves, and the list that clearing
    [types2] first and [types1] second leaves. *)
Theorem clearEvents_compose (productItem : ProductItem W)
        types1 types2 completeEvent w :
  exists p1 w1 p12 w12 p2 w2 p21 w21 w',
    clearEvents productItem types1 completeEvent w = Some (p1, w1) /\
    clearEvents p1 types2 completeEvent w1 = Some (p12, w12) /\
    clearEvents productItem types2 completeEvent w = Some (p2, w2) /\
    clearEvents p2 types1 completeEvent w2 = Some (p21, w21) /\
    clearEvents productItem (types1 ++ types2) completeEvent w = Some (p12, w') /\
    p21 = p12.
Proof.
  eexists _, _, _, _, _, _, _, _, _.
  split; [apply clearEvents_eq|].
  split; [apply clearEvents_eq|].
  split; [apply clearEvents_eq|].
  split; [apply clearEvents_eq|].
  cbn [activeEvents id name].
  split; [by rewrite clearEvents_eq, kept_kept|].
  by rewrite kept_comm.
Qed.

End Sweeps.

End ProductItemUtilityMore.

Module MaterialColorChangerMore.
Import ProductItemUtility MaterialColorChanger MaterialColorChangerProofs.

(** *** The heap while a batch is built *)

Lemma heap_wf_mono (h h' : Heap) :
  Three.materials h' = Three.materials h ->
  length (colors h) <= length (colors h') ->
  heap_wf h -> heap_wf h'.
Proof.
  unfold heap_wf. intros -> Hlen Hwf.
  rewrite forallb_forall in *. intros mat Hin. specialize (Hwf mat Hin).
  destruct (color mat) as [c|]; [|done].
  apply Nat.ltb_lt in Hwf. apply Nat.ltb_lt. lia.
Qed.

Lemma materialColor_grow (h h' : Heap) (extra : list Color) :
  heap_wf h ->
  Three.materials h' = Three.materials h ->
  colors h' = colors h ++ extra ->
  forall m, materialColor h' m = materialColor h m.
Proof.
  intros Hwf Hm Hc m. unfold materialColor. rewrite Hm, Hc.
  destruct (Three.materials h !! m) as [mat|] eqn:Hlk; cbn; [|done].
  destruct (color mat) as [c|] eqn:Hcol; cbn; [|done].
  apply lookup_app_l. by eapply wf_color_bound.
Qed.

Lemma getAnimatableItems_grows (event : MaterialColorSwapEventData) (h : Heap) :
  heap_wf h ->
  Three.materials (getAnimatableItems event h).2 = Three.materials h /\
  exists extra, colors (getAnimatableItems event h).2 = colors h ++ extra.
Proof.
  intros Hwf.
  destruct (created_getAnimatableItems h _ Hwf event eq_refl) as (Hm & He & _).
  by split.
Qed.

(** X4. Building the items of a batch reads the heap and adds to it, no
    more: the materials are the same, every colour object there was keeps
    its channels, so every material shows the colour it showed, and no
    reference dangles afterwards. *)
Theorem getAnimatableItems_changes_no_color
        (event : MaterialColorSwapEventData) (h : Heap) :
  heap_wf h ->
  Three.materials (getAnimatableItems event h).2 = Three.materials h /\
  (forall c, c < length (colors h) ->
             colors (getAnimatableItems event h).2 !! c = colors h !! c) /\
  (forall m, materialColor (getAnimatableItems event h).2 m = materialColor h m) /\
  heap_wf (getAnimatableItems event h).2.
Proof.
  intros Hwf.
  destruct (getAnimatableItems_grows event h Hwf) as (Hm & extra & He).
  split; [exact Hm|]. split; [|split].
  - intros c Hc. rewrite He. by apply lookup_app_l.
  - by eapply materialColor_grow.
  - eapply heap_wf_mono; [exact Hm| |exact Hwf].
    rewrite He, length_app. lia.
Qed.

Lemma getAnimatableItems_changes_no_color_witness :
  Three.materials (getAnimatableItems toHalfGrey showroom).2
  = Three.materials showroom /\
  (forall c, c < length (colors showroom) ->
             colors (getAnimatableItems toHalfGrey showroom).2 !! c
             = colors showroom !! c) /\
  (forall m, materialColor (getAnimatableItems toHalfGrey showroom).2 m
             = materialColor showroom m) /\
  heap_wf (getAnimatableItems toHalfGrey showroom).2.
Proof.
  apply (getAnimatableItems_changes_no_color toHalfGrey showroom).
  reflexivity.
Defined.

(** *** Where the colour objects of the items are *)

Section Layout.
Context (target : Color) (n0 : nat).

Definition laid_out (acc : list AnimatableColorItem * Heap) : Prop :=
  length (colors acc.2) = n0 + 2 * length acc.1 /\
  forall k it, acc.1 !! k = Some it ->
               deltaColor it = n0 + 2 * k /\ startColor it = n0 + 2 * k + 1.

Lemma laid_out_tryAddAnimatableItem acc m :
  laid_out acc -> laid_out (tryAddAnimatableItem target acc m).
Proof.
  destruct acc as [its h]. intros [Hlen Hat]. cbn in *.
  unfold tryAddAnimatableItem.
  destruct (color (Three.materials h !!! m)) as [c|]; [|by split].
  unfold newColor, clone, laid_out. cbn [fst snd colors]. split.
  - rewrite !length_app, Hlen. cbn. lia.
  - intros k it Hk. apply lookup_app_Some in Hk as [Hk|[Hge Hk]]; [by apply Hat|].
    apply list_lookup_singleton_Some in Hk as [Hk <-].
    cbn [deltaColor startColor]. rewrite length_app. cbn. lia.
Qed.

Lemma laid_out_tryAddAnimatableItems ms acc :
  laid_out acc -> laid_out (tryAddAnimatableItems ms target acc).
Proof.
  unfold tryAddAnimatableItems. revert acc.
  induction ms as [|m ms IH]; intros acc Hacc; cbn; [exact Hacc|].
  apply IH, laid_out_tryAddAnimatableItem, Hacc.
Qed.

Lemma laid_out_visits os acc :
  laid_out acc -> laid_out (fold_left (visit target) os acc).
Proof.
  revert acc. induction os as [|o os IH]; intros acc Hacc; cbn; [exact Hacc|].
  apply IH. unfold visit.
  destruct (kind o) as [[m|ms|k]|]; auto using laid_out_tryAddAnimatableItems.
Qed.

End Layout.

(** X5. Every item owns two colour objects of its own, made when the
    batch is built: the heap grows by exactly two colour objects per item,
    and the item at position [k] has its [deltaColor] at the [2k]-th and
    its [startColor] at the [2k+1]-th of the new objects.  No two items
    share one, and none is an object that existed before. *)
Theorem getAnimatableItems_allocates_two_per_item
        (event : MaterialColorSwapEventData) (h : Heap) :
  length (colors (getAnimatableItems event h).2)
  = length (colors h) + 2 * length (getAnimatableItems event h).1 /\
  forall k it,
    (getAnimatableItems event h).1 !! k = Some it ->
    deltaColor it = length (colors h) + 2 * k /\
    startColor it = length (colors h) + 2 * k + 1.
Proof.
  unfold getAnimatableItems.
  assert (laid_out (length (colors h)) ([], h)) as H0.
  { split; cbn; [lia|]. intros k it Hk. by rewrite lookup_nil in Hk. }
  assert (laid_out (length (colors h))
            match materials_ event with
            | Some ms => tryAddAnimatableItems ms (targetColor event) ([], h)
            | Datatypes.None => ([], h)
            end) as H1.
  { destruct (materials_ event); auto using laid_out_tryAddAnimatableItems. }
  destruct (rootObject event) as [root|]; [|exact H1].
  by apply laid_out_visits.
Qed.

(** *** What a tick leaves alone *)

Lemma doProgressItem_frame (p : number) (h : Heap) (it : AnimatableColorItem) :
  Three.materials (doProgressItem p h it) = Three.materials h /\
  length (colors (doProgressItem p h it)) = length (colors h) /\
  forall c, color (Three.materials h !!! material_ it) <> Some c ->
            colors (doProgressItem p h it) !! c = colors h !! c.
Proof.
  unfold doProgressItem.
  destruct (color (Three.materials h !!! material_ it)) as [c'|]; cbn.
  - split; [done|]. split; [by rewrite length_insert|].
    intros c Hc. apply list_lookup_insert_ne. congruence.
  - done.
Qed.

Lemma doProgress_frame_aux (items : list AnimatableColorItem) (p : number) :
  forall h,
    Three.materials (doProgress items p h) = Three.materials h /\
    length (colors (doProgress items p h)) = length (colors h) /\
    forall c,
      (forall it, it ∈ items ->
                  color (Three.materials h !!! material_ it) <> Some c) ->
      colors (doProgress items p h) !! c = colors h !! c.
Proof.
  unfold doProgress.
  induction items as [|it items IH]; intros h; cbn; [done|].
  destruct (doProgressItem_frame p h it) as (Hm1 & Hl1 & Hc1).
  destruct (IH (doProgressItem p h it)) as (Hm2 & Hl2 & Hc2).
  split; [congruence|]. split; [congruence|].
  intros c Hc. rewrite Hc2, Hc1; [done| |].
  - apply Hc, list_elem_of_here.
  - intros it' Hit'. rewrite Hm1. by apply Hc, list_elem_of_further.
Qed.

(** X6. A tick writes the colour objects of the materials of its batch
    and nothing else: the materials and the number of colour objects stay,
    a colour object that is the colour of no material of the batch keeps
    its channels, and no reference dangles afterwards. *)
Theorem doProgress_touches_only_its_batch
        (items : list AnimatableColorItem) (p : number) (h : Heap) :
  Three.materials (doProgress items p h) = Three.materials h /\
  length (colors (doProgress items p h)) = length (colors h) /\
  (forall c,
      (forall it, it ∈ items ->
                  color (Three.materials h !!! material_ it) <> Some c) ->
      colors (doProgress items p h) !! c = colors h !! c) /\
  (heap_wf h -> heap_wf (doProgress items p h)).
Proof.
  destruct (doProgress_frame_aux items p h) as (Hm & Hl & Hc).
  split; [exact Hm|]. split; [exact Hl|]. split; [exact Hc|].
  apply heap_wf_mono; [exact Hm|lia].
Qed.

(** *** The two ways through [changeColorLinearly] *)

Lemma changeColorLinearly_heap (event : MaterialColorSwapEventData)
      (duration : number) (h : Heap) :
  (changeColorLinearly event duration h).1
  = if (duration <=? 0)%float
    then doProgress (getAnimatableItems event h).1 1%float
                    (getAnimatableItems event h).2
    else (getAnimatableItems event h).2.
Proof.
  unfold changeColorLinearly.
  destruct (getAnimatableItems event h) as [items h1].
  by destruct (duration <=? 0)%float.
Qed.

Lemma changeColorLinearly_wf (event : MaterialColorSwapEventData)
      (duration : number) (h : Heap) :
  heap_wf h ->
  Three.materials (changeColorLinearly event duration h).1 = Three.materials h /\
  heap_wf (changeColorLinearly event duration h).1.
Proof.
  intros Hwf. rewrite changeColorLinearly_heap.
  destruct (getAnimatableItems_grows event h Hwf) as (Hm & extra & He).
  assert (heap_wf (getAnimatableItems event h).2) as Hwf1.
  { eapply heap_wf_mono; [exact Hm| |exact Hwf]. rewrite He, length_app. lia. }
  destruct (duration <=? 0)%float; [|by split].
  destruct (doProgress_frame_aux (getAnimatableItems event h).1 1%float
              (getAnimatableItems event h).2) as (Hm' & Hl' & _).
  split; [congruence|].
  eapply heap_wf_mono; [exact Hm'|lia|exact Hwf1].
Qed.

(** X7. With a duration that is positive (or not a number),
    [changeColorLinearly] calls [createAnimation] once, for the event's
    product item, under [ColorChange], with the duration and the batch, and
    hands the tick function it gets to [requestAnimationFrame] once; until
    the first tick every material shows the colour it showed. *)
Theorem changeColorLinearly_animated
        (event : MaterialColorSwapEventData) (duration : number) (h : Heap) :
  (duration <=? 0)%float = false ->
  heap_wf h ->
  exists animate,
    changeColorLinearly event duration h
    = ((getAnimatableItems event h).2,
       [CreateAnimation animate; RequestAnimationFrame animate]) /\
    animate = mkAnimation (productItem event) ColorChange duration
                          (getAnimatableItems event h).1 /\
    forall m, materialColor (changeColorLinearly event duration h).1 m
              = materialColor h m.
Proof.
  intros Hd Hwf. eexists. split; [|split; [reflexivity|]].
  - unfold changeColorLinearly.
    destruct (getAnimatableItems event h) as [items h1]. by rewrite Hd.
  - rewrite changeColorLinearly_heap, Hd.
    destruct (getAnimatableItems_grows event h Hwf) as (Hm & extra & He).
    by eapply materialColor_grow.
Qed.

Lemma changeColorLinearly_animated_witness :
  exists animate,
    changeColorLinearly toHalfGrey nan showroom
    = ((getAnimatableItems toHalfGrey showroom).2,
       [CreateAnimation animate; RequestAnimationFrame animate]) /\
    animate = mkAnimation (productItem toHalfGrey) ColorChange nan
                          (getAnimatableItems toHalfGrey showroom).1 /\
    forall m, materialColor (changeColorLinearly toHalfGrey nan showroom).1 m
              = materialColor showroom m.
Proof.
  apply (changeColorLinearly_animated toHalfGrey nan showroom).
  - reflexivity.
  - reflexivity.
Defined.

(** X9. [changeColorLinearly] keeps the heap in order, whatever the
    duration: the materials are the same and no reference dangles, so
    colour changes can follow one another. *)
Theorem changeColorLinearly_keeps_heap_wf
        (event : MaterialColorSwapEventData) (duration : number) (h : Heap) :
  heap_wf h ->
  Three.materials (changeColorLinearly event duration h).1 = Three.materials h /\
  heap_wf (changeColorLinearly event duration h).1.
Proof. apply changeColorLinearly_wf. Qed.

Lemma changeColorLinearly_keeps_heap_wf_witness :
  Three.materials (changeColorLinearly toDarkGrey 0%float showroom).1
  = Three.materials showroom /\
  heap_wf (changeColorLinearly toDarkGrey 0%float showroom).1.
Proof.
  apply (changeColorLinearly_keeps_heap_wf toDarkGrey 0%float showroom).
  reflexivity.
Defined.

(** X10. Two instant colour changes in a row: the second starts from the
    colour the first left.  For every item of the second batch, the colour
    of its material after the second change is the interpolation at
    progress 1 from the colour it showed after the first change to the
    second target. *)
Theorem changeColorLinearly_twice
        (event1 event2 : MaterialColorSwapEventData)
        (duration1 duration2 : number) (h : Heap) (item : AnimatableColorItem) :
  heap_wf h ->
  (duration2 <=? 0)%float = true ->
  item ∈ (getAnimatableItems event2
            (changeColorLinearly event1 duration1 h).1).1 ->
  exists between,
    materialColor (changeColorLinearly event1 duration1 h).1 (material_ item)
    = Some between /\
    materialColor
      (changeColorLinearly event2 duration2
         (changeColorLinearly event1 duration1 h).1).1 (material_ item)
    = Some (interpolate between (minus (targetColor event2) between) 1%float).
Proof.
  intros Hwf Hd2 Hin.
  destruct (changeColorLinearly_wf event1 duration1 h Hwf) as [_ Hwf1].
  set (h1 := (changeColorLinearly event1 duration1 h).1) in *.
  rewrite changeColorLinearly_heap, Hd2.
  destruct (getAnimatableItems event2 h1) as [items h2] eqn:Hget.
  apply (doProgress_interpolates_from_snapshot_aux
           h1 event2 items h2 h2 item 1%float Hwf1 Hget (rtc_refl _ _) Hin).
Qed.

Lemma changeColorLinearly_twice_witness :
  exists between,
    materialColor (changeColorLinearly toDarkGrey 0%float showroom).1
                  (material_ (mkItem 4 3 0))
    = Some between /\
    materialColor
      (changeColorLinearly toHalfGrey 0%float
         (changeColorLinearly toDarkGrey 0%float showroom).1).1
      (material_ (mkItem 4 3 0))
    = Some (interpolate between (minus (targetColor toHalfGrey) between) 1%float).
Proof.
  apply (changeColorLinearly_twice toDarkGrey toHalfGrey 0%float 0%float
                                   showroom (mkItem 4 3 0)).
  - reflexivity.
  - reflexivity.
  - apply list_elem_of_here.
Defined.

(** *** A batch with nothing in it *)

Section Nothing.
Context (target : Color) (h : Heap).

Lemma tryAddAnimatableItems_nothing ms acc :
  Three.materials acc.2 = Three.materials h ->
  List.filter (qualifies h) ms = [] ->
  tryAddAnimatableItems ms target acc = acc.
Proof.
  unfold tryAddAnimatableItems.
  induction ms as [|m ms IH]; intros Hm Hnone; cbn in *; [done|].
  unfold qualifies at 1, isColorMaterial in Hnone.
  destruct acc as [its h']. cbn in Hm.
  unfold tryAddAnimatableItem at 2. rewrite Hm.
  destruct (color (Three.materials h !!! m)); [discriminate|].
  by apply IH.
Qed.

Lemma visits_nothing os acc :
  Three.materials acc.2 = Three.materials h ->
  List.filter (qualifies h) (flat_map nodeMaterials (List.filter isMesh os)) = [] ->
  fold_left (visit target) os acc = acc.
Proof.
  induction os as [|o os IH]; intros Hm Hnone; cbn in *; [done|].
  assert (visit target acc o = acc /\
          List.filter (qualifies h)
            (flat_map nodeMaterials (List.filter isMesh os)) = []) as [-> Hrest].
  { unfold visit. unfold isMesh in Hnone.
    destruct (kind o) as [mm|] eqn:Hk; [|done].
    cbn in Hnone. rewrite List.filter_app in Hnone.
    apply app_eq_nil in Hnone as [Hown Hrest]. split; [|exact Hrest].
    unfold nodeMaterials, material in Hown. rewrite Hk in Hown.
    destruct mm as [m|ms|k]; [by apply tryAddAnimatableItems_nothing..|done]. }
  by apply IH.
Qed.

End Nothing.

(** X8. When no material of the event passes [isColorMaterial] (no
    explicit material, no material of a mesh node under the root), the
    batch is empty and the heap is not touched; [changeColorLinearly] then
    changes nothing if the duration is not positive, and otherwise still
    creates an animation, over no item, and requests a frame for it. *)
Theorem changeColorLinearly_nothing_to_animate
        (event : MaterialColorSwapEventData) (duration : number) (h : Heap) :
  List.filter (qualifies h)
    (default [] (materials_ event)
     ++ flat_map nodeMaterials
          (List.filter isMesh (from_option traverse [] (rootObject event))))
  = [] ->
  getAnimatableItems event h = ([], h) /\
  changeColorLinearly event duration h
  = (h, if (duration <=? 0)%float then []
        else [CreateAnimation
                (mkAnimation (productItem event) ColorChange duration []);
              RequestAnimationFrame
                (mkAnimation (productItem event) ColorChange duration [])]).
Proof.
  intros Hnone. rewrite List.filter_app in Hnone.
  apply app_eq_nil in Hnone as [Hexplicit Hroot].
  assert (getAnimatableItems event h = ([], h)) as Hget.
  { unfold getAnimatableItems.
    assert (match materials_ event with
            | Some ms => tryAddAnimatableItems ms (targetColor event) ([], h)
            | Datatypes.None => ([], h)
            end = ([], h)) as ->.
    { destruct (materials_ event) as [ms|]; [|done].
      by apply (tryAddAnimatableItems_nothing _ h). }
    destruct (rootObject event) as [root|]; [|done].
    by apply (visits_nothing _ h). }
  split; [exact Hget|].
  unfold changeColorLinearly. rewrite Hget.
  by destruct (duration <=? 0)%float.
Qed.

(** A line drawn with the paint: it has a coloured material and is no
    mesh. *)
Definition outline : Object3D :=
  mkObject3D (NotMesh (Some (Single 0))) false false [].

Definition recolourOutline : MaterialColorSwapEventData :=
  mkColorSwap chair Datatypes.None (Some outline)
              (mkColor 0.5%float 0.5%float 0.5%float)
              MaterialAnimationType.Linear.

Lemma changeColorLinearly_nothing_to_animate_witness :
  getAnimatableItems recolourOutline showroom = ([], showroom) /\
  changeColorLinearly recolourOutline 250%float showroom
  = (showroom,
     if (250 <=? 0)%float then []
     else [CreateAnimation
             (mkAnimation (productItem recolourOutline) ColorChange 250%float []);
           RequestAnimationFrame
             (mkAnimation (productItem recolourOutline) ColorChange 250%float [])]).
Proof.
  apply (changeColorLinearly_nothing_to_animate recolourOutline 250%float showroom).
  reflexivity.
Defined.

End MaterialColorChangerMore.

Module MeshLoaderMore.
Import MeshLoader MeshLoaderProofs.

(** *** File names *)

(** Whether the character occurs in the string. *)
Fixpoint hasChar (c : ascii) (s : string) : bool :=
  match s with
  | EmptyString => false
  | String c' rest => Ascii.eqb c' c || hasChar c rest
  end.

Lemma split_cons (sep : ascii) (s : string) :
  exists part parts, split sep s = part :: parts.
Proof.
  destruct s as [|c rest]; cbn; [eauto|].
  destruct (Ascii.eqb c sep); [eauto|].
  destruct (split sep rest); eauto.
Qed.

Lemma concat_cons (sep part : string) (parts : list string) :
  parts <> [] ->
  String.concat sep (part :: parts)
  = String.append part (String.append sep (String.concat sep parts)).
Proof. by destruct parts. Qed.

Lemma split_concat (sep : ascii) (s : string) :
  String.concat (String sep EmptyString) (split sep s) = s.
Proof.
  induction s as [|c rest IH]; cbn [split]; [reflexivity|].
  destruct (Ascii.eqb_spec c sep) as [->|Hne].
  - destruct (split_cons sep rest) as (part & parts & Hsplit).
    rewrite concat_cons by (rewrite Hsplit; discriminate).
    cbn. by rewrite IH.
  - destruct (split_cons sep rest) as (part & parts & Hsplit).
    rewrite Hsplit in *.
    destruct parts as [|part' parts].
    + cbn in *. by rewrite IH.
    + rewrite concat_cons by discriminate.
      rewrite concat_cons in IH by discriminate.
      by rewrite <- IH.
Qed.

Lemma split_parts_without_sep (sep : ascii) (s : string) :
  Forall (fun part => hasChar sep part = false) (split sep s).
Proof.
  induction s as [|c rest IH]; cbn [split]; [by repeat constructor|].
  destruct (Ascii.eqb c sep) eqn:Hc; [by constructor|].
  destruct (split_cons sep rest) as (part & parts & Hsplit).
  rewrite Hsplit in *.
  apply Forall_cons in IH as [Hpart Hparts].
  constructor; [|exact Hparts]. cbn. by rewrite Hc, Hpart.
Qed.

Lemma split_without_sep (sep : ascii) (s : string) :
  hasChar sep s = false -> split sep s = [s].
Proof.
  induction s as [|c rest IH]; cbn; [done|].
  intros [Hc Hrest]%orb_false_elim. rewrite Hc, IH by exact Hrest. done.
Qed.

Lemma split_append (sep : ascii) (base rest : string) :
  split sep (String.append base (String sep rest))
  = split sep base ++ split sep rest.
Proof.
  induction base as [|c base IH].
  - change (split sep (String sep rest) = [EmptyString] ++ split sep rest).
    cbn [split]. by rewrite Ascii.eqb_refl.
  - change (split sep (String c (String.append base (String sep rest)))
            = split sep (String c base) ++ split sep rest).
    cbn [split].
    destruct (Ascii.eqb c sep); [by rewrite IH|].
    rewrite IH. destruct (split_cons sep base) as (part & parts & ->). done.
Qed.

Lemma last_app_cons {A : Type} (l1 l2 : list A) (x d : A) :
  List.last (l1 ++ x :: l2) d = List.last (x :: l2) d.
Proof.
  induction l1 as [|y l1 IH]; [done|].
  cbn [app]. rewrite <- IH. cbn. by destruct (l1 ++ x :: l2) eqn:E;
    [destruct l1; discriminate|].
Qed.

(** X11. [split] takes a string apart at every separator and loses
    nothing: joining the parts with the separator gives the string back;
    there is always at least one part; no part contains the separator;
    and the parts of [base ++ sep ++ rest] are the parts of [base] followed
    by the parts of [rest]. *)
Theorem split_round_trip (sep : ascii) (s base rest : string) :
  String.concat (String sep EmptyString) (split sep s) = s /\
  split sep s <> [] /\
  Forall (fun part => hasChar sep part = false) (split sep s) /\
  split sep (String.append base (String sep rest))
  = split sep base ++ split sep rest.
Proof.
  split; [apply split_concat|]. split; [|split].
  - destruct (split_cons sep s) as (part & parts & ->). discriminate.
  - apply split_parts_without_sep.
  - apply split_append.
Qed.

Lemma toLowerCaseChar_idempotent (c : ascii) :
  toLowerCaseChar (toLowerCaseChar c) = toLowerCaseChar c.
Proof.
  unfold toLowerCaseChar.
  destruct ((65 <=? nat_of_ascii c) && (nat_of_ascii c <=? 90)) eqn:Hup;
    [|by rewrite Hup].
  apply andb_prop in Hup as [Hlo%Nat.leb_le Hhi%Nat.leb_le].
  rewrite nat_ascii_embedding by lia.
  replace (nat_of_ascii c + 32 <=? 90) with false
    by (symmetry; apply Nat.leb_gt; lia).
  by rewrite andb_false_r.
Qed.

Lemma toLowerCase_idempotent (s : string) :
  toLowerCase (toLowerCase s) = toLowerCase s.
Proof.
  induction s as [|c s IH]; cbn; [done|].
  by rewrite toLowerCaseChar_idempotent, IH.
Qed.

Lemma fileExtension_after_last_dot (base e : string) (mi : MaterialInfo) :
  hasChar "." e = false ->
  fileExtension (mkModel3D (String.append base (String "." e)) mi)
  = toLowerCase e.
Proof.
  intros He. unfold fileExtension. cbn [filename].
  rewrite split_append, (split_without_sep _ _ He).
  by rewrite last_app_cons.
Qed.

(** X12. The extension [loadMesh] dispatches on is the text after the
    last dot, in lower case: a name [base.e] with no dot in [e] has the
    extension [toLowerCase e], whatever [base] is; a name without any dot
    is its own extension; and the extension is already in lower case. *)
Theorem fileExtension_is_lowercase_suffix
        (base e : string) (mi : MaterialInfo) :
  hasChar "." e = false ->
  fileExtension (mkModel3D (String.append base (String "." e)) mi)
  = toLowerCase e /\
  fileExtension (mkModel3D e mi) = toLowerCase e /\
  toLowerCase (fileExtension (mkModel3D (String.append base (String "." e)) mi))
  = fileExtension (mkModel3D (String.append base (String "." e)) mi).
Proof.
  intros He. split; [by apply fileExtension_after_last_dot|]. split.
  - unfold fileExtension. cbn [filename].
    by rewrite (split_without_sep _ _ He).
  - rewrite fileExtension_after_last_dot by exact He.
    apply toLowerCase_idempotent.
Qed.

Lemma fileExtension_is_lowercase_suffix_witness :
  fileExtension (mkModel3D (String.append "models/chair.v2" (String "." "ObJ"))
                           (materialInfo chairRaw))
  = toLowerCase "ObJ" /\
  fileExtension (mkModel3D "ObJ" (materialInfo chairRaw)) = toLowerCase "ObJ" /\
  toLowerCase
    (fileExtension (mkModel3D (String.append "models/chair.v2" (String "." "ObJ"))
                              (materialInfo chairRaw)))
  = fileExtension (mkModel3D (String.append "models/chair.v2" (String "." "ObJ"))
                             (materialInfo chairRaw)).
Proof.
  apply (fileExtension_is_lowercase_suffix "models/chair.v2" "ObJ"
                                           (materialInfo chairRaw)).
  reflexivity.
Defined.

(** *** When loading fails *)

(** X13. A failure of any loader leaves the promise of [loadMesh] pending
    for ever, neither resolved nor rejected: the geometry or the material
    file of an [obj] model that does not load, the document of a [gltf]
    model that does not load, an environment map that does not resolve. *)
Theorem loadMesh_load_failure_is_pending
        (ld : Loaders) (descriptor : Model3D) (h : Heap) :
  (fileExtension descriptor = "obj"%string ->
   objLoader_load ld (filename descriptor) h = None ->
   loadMesh ld descriptor h = Pending)
  /\ (fileExtension descriptor = "obj"%string ->
      forall group h1,
        objLoader_load ld (filename descriptor) h = Some (group, h1) ->
        truthy (mtl (materialInfo descriptor)) = true ->
        mtlLoader_load ld (default EmptyString (mtl (materialInfo descriptor))) h1
        = None ->
        loadMesh ld descriptor h = Pending)
  /\ (fileExtension descriptor = "gltf"%string ->
      gltfLoader_load ld (filename descriptor) h = None ->
      loadMesh ld descriptor h = Pending)
  /\ (fileExtension descriptor = "gltf"%string ->
      (forall t, loadEnvironment ld environmentMapUrl <> Resolved t) ->
      loadMesh ld descriptor h = Pending).
Proof.
  split; [|split; [|split]].
  - intros Hext Hobj. rewrite (loadMesh_obj _ _ _ Hext).
    unfold loadObj. by rewrite Hobj.
  - intros Hext group h1 Hobj Hfile Hmtl. rewrite (loadMesh_obj _ _ _ Hext).
    unfold loadObj, loadMaterial. by rewrite Hobj, Hfile, Hmtl.
  - intros Hext Hgltf. rewrite (loadMesh_gltf _ _ _ Hext).
    unfold loadGlTF. by rewrite Hgltf.
  - intros Hext Henv. rewrite (loadMesh_gltf _ _ _ Hext). unfold loadGlTF.
    destruct (gltfLoader_load ld (filename descriptor) h) as [[gltfObject h1]|];
      [|done].
    destruct (loadEnvironment ld environmentMapUrl) as [t| |]; [|done..].
    by destruct (Henv t).
Qed.

(** X14. With a material file, one child without a [material] is enough
    for the promise never to settle: reading the name of its material
    fails inside the callback, and [resolve] is not reached. *)
Theorem loadMesh_material_file_child_without_material
        (ld : Loaders) (descriptor : Model3D) (h : Heap)
        (group : Object3D) (h1 : Heap) (creator : MaterialCreator) :
  fileExtension descriptor = "obj"%string ->
  truthy (mtl (materialInfo descriptor)) = true ->
  objLoader_load ld (filename descriptor) h = Some (group, h1) ->
  mtlLoader_load ld (default EmptyString (mtl (materialInfo descriptor))) h1
  = Some creator ->
  Exists (fun child => material child = None) (children group) ->
  loadMesh ld descriptor h = Pending.
Proof.
  intros Hext Hfile Hobj Hmtl Hbare.
  rewrite (loadMesh_obj _ _ _ Hext). unfold loadObj. rewrite Hobj.
  unfold loadMaterial. rewrite Hfile, Hmtl.
  destruct (preload ld creator h1) as [creator' h2].
  assert (mapM (assignFromFile creator' h2) (children group) = None) as ->.
  { apply mapM_None. eapply Exists_impl; [exact Hbare|].
    intros child Hnone. unfold assignFromFile. by rewrite Hnone. }
  done.
Qed.

(** A chair whose legs came without a material. *)
Definition bareLegs : Object3D := mkObject3D (NotMesh None) false false [].
Definition brokenGroup : Object3D :=
  mkObject3D (NotMesh None) false false [seat; bareLegs].

Definition brokenStudio : Loaders :=
  mkLoaders (fun _ _ => Some (brokenGroup, workshop))
            (mtlLoader_load studio) (preload studio)
            (gltfLoader_load studio) (loadEnvironment studio).

Lemma loadMesh_material_file_child_without_material_witness :
  loadMesh brokenStudio chairMtl (mkHeap [] []) = Pending.
Proof.
  apply (loadMesh_material_file_child_without_material
           brokenStudio chairMtl (mkHeap [] []) brokenGroup workshop emptyCreator).
  - reflexivity.
  - reflexivity.
  - reflexivity.
  - reflexivity.
  - apply Exists_cons_tl, Exists_cons_hd. reflexivity.
Defined.

(** *** The passes over the materials *)

(** The single material of a node, if it has one, and the single
    materials of all the nodes at or below the nodes of a list, in the
    order the passes meet them. *)
Definition ownSingle (o : Object3D) : list MaterialRef :=
  match material o with
  | Some (Single m) => [m]
  | _ => []
  end.

Definition singleMaterials (cs : list Object3D) : list MaterialRef :=
  flat_map (fun c => flat_map ownSingle (traverse c)) cs.

(** [f] applied in place to the materials of a list of references. *)
Definition applyTo (f : Material -> Material) (refs : list MaterialRef)
           (h : Heap) : Heap :=
  fold_left (fun h m => updateMaterial f m h) refs h.

Lemma applyTo_app f refs1 refs2 h :
  applyTo f (refs1 ++ refs2) h = applyTo f refs2 (applyTo f refs1 h).
Proof. apply fold_left_app. Qed.

Lemma applyTo_lookup f refs :
  (forall mat, f (f mat) = f mat) ->
  forall h m,
    colors (applyTo f refs h) = colors h /\
    Three.materials (applyTo f refs h) !! m
    = if decide (m ∈ refs) then f <$> Three.materials h !! m
      else Three.materials h !! m.
Proof.
  intros Hidem. unfold applyTo.
  induction refs as [|r refs IH]; intros h m; cbn [fold_left].
  - split; [done|]. by rewrite decide_False by apply not_elem_of_nil.
  - destruct (IH (updateMaterial f r h) m) as [Hc Hm].
    split; [exact Hc|]. rewrite Hm. cbn [updateMaterial Three.materials].
    destruct (decide (r = m)) as [->|Hne].
    + rewrite list_lookup_alter_eq.
      rewrite (decide_True (P := m ∈ m :: refs)) by apply list_elem_of_here.
      destruct (decide (m ∈ refs)); [|done].
      destruct (Three.materials h !! m); cbn; [by rewrite Hidem|done].
    + rewrite list_lookup_alter_ne by exact Hne.
      destruct (decide (m ∈ refs)) as [Hin|Hnin].
      * by rewrite decide_True by by apply list_elem_of_further.
      * rewrite decide_False; [done|].
        intros [?|?]%elem_of_cons; [congruence|done].
Qed.

Lemma fold_passes (pass : Object3D -> Heap -> Heap) f (cs : list Object3D) :
  List.Forall (fun c => forall h,
                   pass c h = applyTo f (flat_map ownSingle (traverse c)) h) cs ->
  forall h, fold_left (fun h c => pass c h) cs h = applyTo f (singleMaterials cs) h.
Proof.
  unfold singleMaterials.
  induction 1 as [|c cs Hc _ IH]; intros h; cbn [fold_left flat_map]; [done|].
  by rewrite applyTo_app, Hc, IH.
Qed.

Lemma traverse_singles (o : Object3D) :
  flat_map ownSingle (traverse o) = ownSingle o ++ singleMaterials (children o).
Proof.
  rewrite MaterialColorChangerProofs.traverse_unfold. cbn [flat_map].
  f_equal. unfold singleMaterials.
  induction (children o) as [|c cs IH]; cbn [flat_map]; [done|].
  by rewrite List.flat_map_app, IH.
Qed.

Lemma trySetBackfaceRendering1_applies (o : Object3D) :
  forall h,
    trySetBackfaceRendering1 o h
    = applyTo (setSide DoubleSide) (flat_map ownSingle (traverse o)) h.
Proof.
  induction o as [k cast recv cs IH] using Object3D_ind. intros h.
  rewrite trySetBackfaceRendering1_unfold, traverse_singles, applyTo_app.
  cbn [children]. rewrite (fold_passes _ _ _ IH). f_equal.
  unfold ownSingle. by destruct (material _) as [[m|ms|key]|].
Qed.

Lemma trySetBackfaceRendering_applies (cs : list Object3D) (h : Heap) :
  trySetBackfaceRendering cs h
  = applyTo (setSide DoubleSide) (singleMaterials cs) h.
Proof.
  apply fold_passes, List.Forall_forall.
  intros c _. apply trySetBackfaceRendering1_applies.
Qed.

Lemma trySetEnvironmentTexture1_unfold texture (o : Object3D) (h : Heap) :
  trySetEnvironmentTexture1 texture o h
  = fold_left (fun h c => trySetEnvironmentTexture1 texture c h) (children o)
      match material o with
      | Some (Single m) =>
          updateMaterial (setEnvironment (MeshLoader.texture texture)) m h
      | Some (Multi _) => h
      | Some (Foreign _) => h
      | None => h
      end.
Proof. by destruct o. Qed.

Lemma trySetEnvironmentTexture1_applies texture (o : Object3D) :
  forall h,
    trySetEnvironmentTexture1 texture o h
    = applyTo (setEnvironment (MeshLoader.texture texture))
              (flat_map ownSingle (traverse o)) h.
Proof.
  induction o as [k cast recv cs IH] using Object3D_ind. intros h.
  rewrite trySetEnvironmentTexture1_unfold, traverse_singles, applyTo_app.
  cbn [children]. rewrite (fold_passes _ _ _ IH). f_equal.
  unfold ownSingle. by destruct (material _) as [[m|ms|key]|].
Qed.

Lemma trySetEnvironmentTexture_applies (cs : list Object3D) texture (h : Heap) :
  trySetEnvironmentTexture cs texture h
  = applyTo (setEnvironment (MeshLoader.texture texture)) (singleMaterials cs) h.
Proof.
  apply fold_passes, List.Forall_forall.
  intros c _. apply trySetEnvironmentTexture1_applies.
Qed.

(** The single materials of a list of nodes are those of the nodes at or
    below them. *)
Lemma elem_of_singleMaterials (cs : list Object3D) (m : MaterialRef) :
  m ∈ singleMaterials cs
  <-> exists c o, In c cs /\ descendant c o /\ material o = Some (Single m).
Proof.
  unfold singleMaterials.
  rewrite list_elem_of_In, in_flat_map. split.
  - intros (c & Hc & Hm). apply in_flat_map in Hm as (o & Ho & Hm).
    exists c, o. split; [exact Hc|].
    split; [by apply MaterialColorChangerProofs.traverse_descendant|].
    unfold ownSingle in Hm.
    destruct (material o) as [[m'|ms|k]|]; cbn in Hm; [|done..].
    by destruct Hm as [->|[]].
  - intros (c & o & Hc & Ho & Hm). exists c. split; [exact Hc|].
    apply in_flat_map. exists o.
    split; [by apply MaterialColorChangerProofs.traverse_descendant|].
    unfold ownSingle. rewrite Hm. by left.
Qed.

Lemma setSide_idempotent (v : Side) (mat : Material) :
  setSide v (setSide v mat) = setSide v mat.
Proof. reflexivity. Qed.

Lemma setEnvironment_idempotent (t : Texture) (mat : Material) :
  setEnvironment t (setEnvironment t mat) = setEnvironment t mat.
Proof. reflexivity. Qed.

(** X15. [trySetBackfaceRendering] makes double-sided exactly the
    materials that are the single material of a node at or below the nodes
    given, and changes nothing else of them; every other material, the
    members of material arrays included, and every colour stay as they
    are. *)
Theorem trySetBackfaceRendering_effect (cs : list Object3D) (h : Heap) :
  colors (trySetBackfaceRendering cs h) = colors h /\
  (forall m,
      Three.materials (trySetBackfaceRendering cs h) !! m
      = if decide (m ∈ singleMaterials cs)
        then setSide DoubleSide <$> Three.materials h !! m
        else Three.materials h !! m) /\
  (forall m,
      m ∈ singleMaterials cs
      <-> exists c o, In c cs /\ descendant c o /\ material o = Some (Single m)).
Proof.
  rewrite trySetBackfaceRendering_applies.
  split; [|split].
  - apply (applyTo_lookup (setSide DoubleSide) (singleMaterials cs)
             (setSide_idempotent DoubleSide) h 0).
  - intros m.
    apply (applyTo_lookup (setSide DoubleSide) (singleMaterials cs)
             (setSide_idempotent DoubleSide) h m).
  - apply elem_of_singleMaterials.
Qed.

(** X16. [trySetEnvironmentTexture] gives the environment map, the
    intensity 0.0625 and the update mark to exactly the materials that are
    the single material of a node at or below the nodes given, keeping
    their name, colour, side and textures; every other material and every
    colour stay as they are. *)
Theorem trySetEnvironmentTexture_effect
        (cs : list Object3D) (target : WebGLRenderTarget) (h : Heap) :
  colors (trySetEnvironmentTexture cs target h) = colors h /\
  (forall m,
      Three.materials (trySetEnvironmentTexture cs target h) !! m
      = if decide (m ∈ singleMaterials cs)
        then (fun mat =>
                mkMaterial (name mat) (color mat) (side mat) (map mat)
                           (normalMap mat) (Some (texture target))
                           (Some 0.0625%float) true)
               <$> Three.materials h !! m
        else Three.materials h !! m) /\
  (forall m,
      m ∈ singleMaterials cs
      <-> exists c o, In c cs /\ descendant c o /\ material o = Some (Single m)).
Proof.
  rewrite trySetEnvironmentTexture_applies.
  split; [|split].
  - apply (applyTo_lookup (setEnvironment (texture target)) (singleMaterials cs)
             (setEnvironment_idempotent (texture target)) h 0).
  - intros m.
    apply (applyTo_lookup (setEnvironment (texture target)) (singleMaterials cs)
             (setEnvironment_idempotent (texture target)) h m).
  - apply elem_of_singleMaterials.
Qed.

(** *** The shadow pass and the shape of the subtree *)

Lemma setReceiveShadow_idempotent (o : Object3D) :
  setReceiveShadow (setReceiveShadow o) = setReceiveShadow o.
Proof.
  induction o as [k cast recv cs IH] using Object3D_ind.
  rewrite !setReceiveShadow_unfold. cbn [kind children]. f_equal.
  rewrite <- list_fmap_compose. apply Forall_fmap_ext_1.
  eapply Forall_impl; [exact IH|]. intros c Hc. exact Hc.
Qed.

(** Whatever is read off the kind of a node is read the same after the
    pass, node by node, in the order of [traverse]. *)
Lemma traverse_setReceiveShadow {B : Type} (g : Object3D -> list B) :
  (forall o, g (setReceiveShadow o) = g o) ->
  forall o, flat_map g (traverse (setReceiveShadow o)) = flat_map g (traverse o).
Proof.
  intros Hg. induction o as [k cast recv cs IH] using Object3D_ind.
  rewrite (MaterialColorChangerProofs.traverse_unfold (setReceiveShadow _)).
  rewrite (MaterialColorChangerProofs.traverse_unfold (mkObject3D _ _ _ _)).
  cbn [flat_map]. rewrite Hg. f_equal.
  rewrite setReceiveShadow_unfold. cbn [children].
  induction IH as [|c cs Hc _ IHcs]; cbn [fmap list_fmap flat_map]; [done|].
  by rewrite !List.flat_map_app, Hc, IHcs.
Qed.

Lemma traverses_setReceiveShadow {B : Type} (g : Object3D -> list B)
      (cs : list Object3D) :
  (forall o, g (setReceiveShadow o) = g o) ->
  flat_map g (flat_map traverse (setReceiveShadow <$> cs))
  = flat_map g (flat_map traverse cs).
Proof.
  intros Hg. induction cs as [|c cs IH]; cbn [fmap list_fmap flat_map]; [done|].
  by rewrite !List.flat_map_app, traverse_setReceiveShadow, IH.
Qed.

Lemma map_as_flat_map {A B : Type} (f : A -> B) (l : list A) :
  List.map f l = flat_map (fun x => [f x]) l.
Proof. induction l as [|x l IH]; cbn; [done|]. by rewrite IH. Qed.

Lemma kind_setReceiveShadow (o : Object3D) : kind (setReceiveShadow o) = kind o.
Proof. by destruct o. Qed.

Lemma singleMaterials_setReceiveShadows (cs : list Object3D) :
  singleMaterials (setReceiveShadows cs) = singleMaterials cs.
Proof.
  unfold singleMaterials, setReceiveShadows.
  induction cs as [|c cs IH]; cbn [fmap list_fmap flat_map]; [done|].
  rewrite IH. f_equal. apply traverse_setReceiveShadow.
  intros o. unfold ownSingle. by rewrite material_setReceiveShadow.
Qed.

(** X19. The shadow pass changes the two flags and nothing else: doing
    it twice is doing it once, and the nodes met by [traverse] afterwards
    have, one by one, the kind and the material they had. *)
Theorem setReceiveShadow_keeps_the_shape (o : Object3D) :
  setReceiveShadow (setReceiveShadow o) = setReceiveShadow o /\
  List.map kind (traverse (setReceiveShadow o)) = List.map kind (traverse o) /\
  List.map material (traverse (setReceiveShadow o))
  = List.map material (traverse o) /\
  length (traverse (setReceiveShadow o)) = length (traverse o).
Proof.
  split; [apply setReceiveShadow_idempotent|].
  assert (List.map kind (traverse (setReceiveShadow o))
          = List.map kind (traverse o)) as Hkind.
  { rewrite !map_as_flat_map. apply traverse_setReceiveShadow.
    intros o'. by rewrite kind_setReceiveShadow. }
  split; [exact Hkind|]. split.
  - rewrite !map_as_flat_map. apply traverse_setReceiveShadow.
    intros o'. by rewrite material_setReceiveShadow.
  - by rewrite <- (length_map kind), Hkind, length_map.
Qed.

(** *** What [loadMesh] delivers for a [gltf] file *)

Lemma flatten_scenes (scenes : list Object3D) (root : Object3D) :
  let root' := fold_left (fun root scene => add root (children scene))
                         scenes root in
  kind root' = kind root /\
  children root' = children root ++ flat_map children scenes.
Proof.
  revert root. induction scenes as [|scene scenes IH]; intros root; cbn.
  - by rewrite app_nil_r.
  - destruct (IH (add root (children scene))) as [-> ->]. cbn.
    by rewrite <- app_assoc.
Qed.

(** X17. For a [gltf] file whose document and environment map load, the
    promise resolves with a new node that has no material and whose
    children are the children of all the scenes, in order, after the
    shadow pass.  No colour is touched.  The materials that are the single
    material of a node below the root get the environment map, and are
    made double-sided as well when [renderBackface] is set; every other
    material is as the document loader left it. *)
Theorem loadMesh_gltf_delivers
        (ld : Loaders) (descriptor : Model3D) (h : Heap)
        (gltfObject : GLTF) (h1 : Heap) (target : WebGLRenderTarget) :
  fileExtension descriptor = "gltf"%string ->
  gltfLoader_load ld (filename descriptor) h = Some (gltfObject, h1) ->
  loadEnvironment ld environmentMapUrl = Resolved target ->
  exists root h',
    loadMesh ld descriptor h
    = Resolved (mkModelLoaded (Some root) descriptor, h') /\
    kind root = NotMesh None /\
    children root
    = setReceiveShadow <$> flat_map children (scenes gltfObject) /\
    colors h' = colors h1 /\
    forall m,
      Three.materials h' !! m
      = if decide (m ∈ singleMaterials (flat_map children (scenes gltfObject)))
        then (fun mat =>
                if renderBackface (materialInfo descriptor)
                then setSide DoubleSide (setEnvironment (texture target) mat)
                else setEnvironment (texture target) mat)
               <$> Three.materials h1 !! m
        else Three.materials h1 !! m.
Proof.
  intros Hext Hgltf Henv.
  destruct (flatten_scenes (scenes gltfObject) newGroup) as [Hkind Hchildren].
  cbn [newGroup kind children app] in Hkind, Hchildren.
  eexists _, _. split; [|split; [|split; [|split]]].
  - rewrite (loadMesh_gltf _ _ _ Hext). unfold loadGlTF.
    rewrite Hgltf, Henv. cbn [await]. reflexivity.
  - cbn [withChildren kind]. exact Hkind.
  - cbn [withChildren children]. by rewrite Hchildren.
  - rewrite Hchildren.
    destruct (renderBackface (materialInfo descriptor)).
    + rewrite trySetBackfaceRendering_applies, trySetEnvironmentTexture_applies.
      destruct (applyTo_lookup _ (singleMaterials (setReceiveShadows
                  (flat_map children (scenes gltfObject))))
                  (setSide_idempotent DoubleSide)
                  (applyTo (setEnvironment (texture target))
                     (singleMaterials (setReceiveShadows
                        (flat_map children (scenes gltfObject)))) h1) 0)
        as [-> _].
      apply (applyTo_lookup _ _ (setEnvironment_idempotent (texture target)) h1 0).
    + rewrite trySetEnvironmentTexture_applies.
      apply (applyTo_lookup _ _ (setEnvironment_idempotent (texture target)) h1 0).
  - intros m. rewrite Hchildren.
    destruct (renderBackface (materialInfo descriptor)).
    + rewrite trySetBackfaceRendering_applies, trySetEnvironmentTexture_applies.
      rewrite singleMaterials_setReceiveShadows.
      destruct (applyTo_lookup _ (singleMaterials
                  (flat_map children (scenes gltfObject)))
                  (setSide_idempotent DoubleSide)
                  (applyTo (setEnvironment (texture target))
                     (singleMaterials (flat_map children (scenes gltfObject))) h1) m)
        as [_ ->].
      destruct (applyTo_lookup _ (singleMaterials
                  (flat_map children (scenes gltfObject)))
                  (setEnvironment_idempotent (texture target)) h1 m) as [_ ->].
      destruct (decide _); [|done].
      by destruct (Three.materials h1 !! m).
    + rewrite trySetEnvironmentTexture_applies.
      rewrite singleMaterials_setReceiveShadows.
      apply (applyTo_lookup _ _ (setEnvironment_idempotent (texture target)) h1 m).
Qed.

Lemma loadMesh_gltf_delivers_witness :
  exists root h',
    loadMesh studio sofa (mkHeap [] [])
    = Resolved (mkModelLoaded (Some root) sofa, h') /\
    kind root = NotMesh None /\
    children root
    = setReceiveShadow <$> flat_map children (scenes (mkGLTF [sofaScene])) /\
    colors h' = colors workshop /\
    forall m,
      Three.materials h' !! m
      = if decide (m ∈ singleMaterials
                         (flat_map children (scenes (mkGLTF [sofaScene]))))
        then (fun mat =>
                if renderBackface (materialInfo sofa)
                then setSide DoubleSide
                       (setEnvironment
                          (texture (mkRenderTarget
                                      (mkTexture (Some "studio.exr"%string)))) mat)
                else setEnvironment
                       (texture (mkRenderTarget
                                   (mkTexture (Some "studio.exr"%string)))) mat)
               <$> Three.materials workshop !! m
        else Three.materials workshop !! m.
Proof.
  apply (loadMesh_gltf_delivers studio sofa (mkHeap [] [])
           (mkGLTF [sofaScene]) workshop
           (mkRenderTarget (mkTexture (Some "studio.exr"%string)))).
  - reflexivity.
  - reflexivity.
  - reflexivity.
Defined.

(** *** More on [obj] files *)

(** What [loadMaterial] does to the nodes: the object keeps its kind and
    each child its own children. *)
Lemma loadMaterial_keeps_below ld group mi h group' h' :
  loadMaterial ld group mi h = Resolved (group', h') ->
  kind group' = kind group /\
  Forall2 (fun child child' => children child' = children child)
          (children group) (children group').
Proof.
  unfold loadMaterial. destruct (truthy (mtl mi)).
  - destruct (mtlLoader_load ld _ h) as [creator|]; [|discriminate].
    destruct (preload ld creator h) as [creator' h1].
    destruct (mapM _ (children group)) as [cs'|] eqn:Hcs'; [|discriminate].
    intros [= <- _]. split; [done|]. cbn [withChildren children].
    apply mapM_Some_1 in Hcs'.
    eapply Forall2_impl; [exact Hcs'|].
    intros child child'. unfold assignFromFile.
    destruct (material child); [|discriminate].
    destruct (readMaterials _ _); by intros [= <-].
  - destruct (newMeshPhongMaterial h) as [m h1].
    intros [= <- _]. split; [done|]. cbn [withChildren children].
    apply Forall2_fmap_r, Forall_Forall2_diag, Forall_forall. done.
Qed.

(** X20. The materials of an [obj] file are assigned to the children of
    the loaded group and to nothing else: the delivered root has the kind,
    hence the material, of the group, and below each child the nodes have,
    one by one, the kind and the material the geometry loader gave
    them. *)
Theorem loadMesh_obj_assigns_children_only
        (ld : Loaders) (descriptor : Model3D) (h : Heap)
        (group : Object3D) (h1 : Heap)
        (result : ModelLoadedEventData) (h' : Heap) (root : Object3D) :
  fileExtension descriptor = "obj"%string ->
  objLoader_load ld (filename descriptor) h = Some (group, h1) ->
  loadMesh ld descriptor h = Resolved (result, h') ->
  object result = Some root ->
  kind root = kind group /\
  length (children root) = length (children group) /\
  forall i child child',
    children group !! i = Some child ->
    children root !! i = Some child' ->
    List.map kind (flat_map traverse (children child'))
    = List.map kind (flat_map traverse (children child)).
Proof.
  intros Hext Hobj Hload Hroot.
  rewrite (loadMesh_obj _ _ _ Hext) in Hload.
  destruct (loadObj ld (filename descriptor) (materialInfo descriptor) h)
    as [[root' h2]| |] eqn:Hloaded; cbn in Hload; [|discriminate..].
  injection Hload as <- <-. cbn in Hroot. injection Hroot as ->.
  apply loadObj_Resolved in Hloaded
    as (group0 & h0 & group' & Hobj' & Hmat & ->).
  rewrite Hobj in Hobj'. injection Hobj' as <- <-.
  apply loadMaterial_keeps_below in Hmat as [Hkind Hbelow].
  rewrite setReceiveShadow_unfold. cbn [kind children].
  split; [exact Hkind|]. split.
  - rewrite length_fmap. symmetry. by eapply Forall2_length.
  - intros i child child' Hi Hi'.
    rewrite list_lookup_fmap in Hi'.
    destruct (Forall2_lookup_l _ _ _ _ _ Hbelow Hi) as (c' & Hc' & Hsame).
    rewrite Hc' in Hi'. injection Hi' as <-.
    rewrite setReceiveShadow_unfold. cbn [children]. rewrite Hsame.
    rewrite !map_as_flat_map. apply traverses_setReceiveShadow.
    intros o. by rewrite kind_setReceiveShadow.
Qed.

Lemma loadMesh_obj_assigns_children_only_witness :
  kind (deliveredRoot (loadMesh studio chairMtl (mkHeap [] []))) = kind chairGroup /\
  length (children (deliveredRoot (loadMesh studio chairMtl (mkHeap [] []))))
  = length (children chairGroup) /\
  forall i child child',
    children chairGroup !! i = Some child ->
    children (deliveredRoot (loadMesh studio chairMtl (mkHeap [] []))) !! i
    = Some child' ->
    List.map kind (flat_map traverse (children child'))
    = List.map kind (flat_map traverse (children child)).
Proof.
  apply (loadMesh_obj_assigns_children_only
           studio chairMtl (mkHeap [] []) chairGroup workshop
           (delivered (loadMesh studio chairMtl (mkHeap [] []))).1
           (delivered (loadMesh studio chairMtl (mkHeap [] []))).2).
  - reflexivity.
  - reflexivity.
  - reflexivity.
  - reflexivity.
Defined.

(** The material made from raw textures, field by field. *)
Lemma loadMaterial_raw_material ld object mi h :
  truthy (mtl mi) = false ->
  exists h' mat,
    loadMaterial ld object mi h
    = Resolved (withChildren object
                  (setMaterial (length (Three.materials h)) <$> children object),
                h') /\
    colors h' = colors h ++ [mkColor 1%float 1%float 1%float] /\
    Three.materials h' !! length (Three.materials h) = Some mat /\
    name mat = EmptyString /\
    color mat = Some (length (colors h)) /\
    envMap mat = None /\
    (renderBackface mi = false -> side mat = FrontSide) /\
    (renderBackface mi = true -> children object <> [] -> side mat = DoubleSide).
Proof.
  intros Hraw. unfold loadMaterial. rewrite Hraw.
  unfold newMeshPhongMaterial, newColor. cbn [fst snd Three.materials colors].
  set (m := length (Three.materials h)).
  set (object' := withChildren object (setMaterial m <$> children object)).
  set (h1 := mkHeap (colors h ++ [mkColor 1%float 1%float 1%float])
                    (Three.materials h
                     ++ [mkMaterial EmptyString (Some (length (colors h)))
                                    FrontSide None None None None false])).
  set (h2 := updateMaterial
               (setMap (Some (textureLoader_load (diffuseTexture mi)))) m h1).
  set (h3 := if truthy (normalTexture mi)
             then updateMaterial
                    (setNormalMap (Some (textureLoader_load (normalTexture mi))))
                    m h2
             else h2).
  assert (colors h3 = colors h ++ [mkColor 1%float 1%float 1%float] /\
          exists mat, Three.materials h3 !! m = Some mat /\
                      name mat = EmptyString /\
                      color mat = Some (length (colors h)) /\
                      envMap mat = None /\ side mat = FrontSide)
    as (Hcol & mat & Hm & Hname & Hcolor & Henv & Hside).
  { assert (Three.materials h2 !! m
            = Some (setMap (Some (mkTexture (diffuseTexture mi)))
                      (mkMaterial EmptyString (Some (length (colors h)))
                                  FrontSide None None None None false))) as Hh2.
    { subst h2. cbn. rewrite list_lookup_alter_eq.
      subst m. by rewrite list_lookup_middle. }
    subst h3. destruct (truthy (normalTexture mi)).
    - unfold updateMaterial at 1 2. cbn [Three.materials colors].
      split; [done|]. rewrite list_lookup_alter_eq, Hh2. cbn. eauto 6.
    - split; [done|]. rewrite Hh2. eauto 6. }
  destruct (renderBackface mi) eqn:Hrb.
  - rewrite trySetBackfaceRendering_applies.
    destruct (applyTo_lookup _ (singleMaterials [object'])
                (setSide_idempotent DoubleSide) h3 m) as [Hc' Hm'].
    rewrite Hm in Hm'.
    destruct (decide (m ∈ singleMaterials [object'])) as [Hin|Hnin].
    + exists (applyTo (setSide DoubleSide) (singleMaterials [object']) h3),
             (setSide DoubleSide mat).
      split; [reflexivity|].
      split; [by rewrite Hc'|]. split; [exact Hm'|].
      cbn [setSide name color envMap side]. by repeat split.
    + exists (applyTo (setSide DoubleSide) (singleMaterials [object']) h3), mat.
      split; [reflexivity|].
      split; [by rewrite Hc'|]. split; [exact Hm'|].
      repeat split; try done.
      intros _ Hchildren. exfalso. apply Hnin.
      apply elem_of_singleMaterials.
      destruct (children object) as [|c cs] eqn:Hcs; [done|].
      exists object', (setMaterial m c).
      split; [by left|]. split; [|apply material_setMaterial].
      apply (descendant_child _ (setMaterial m c)); [|constructor].
      subst object'. cbn [withChildren children]. rewrite ?Hcs. by left.
  - eexists _, _. split; [reflexivity|]. split; [exact Hcol|].
    split; [exact Hm|]. by repeat split.
Qed.

(** X18. The material [loadMesh] makes from raw textures is a new,
    unnamed material with a new white colour and no environment map.  It
    is single-sided when [renderBackface] is off; when [renderBackface] is
    on and the group has a child, it is double-sided. *)
Theorem loadMesh_raw_textures_material
        (ld : Loaders) (descriptor : Model3D) (h : Heap)
        (group : Object3D) (h1 : Heap) :
  fileExtension descriptor = "obj"%string ->
  truthy (mtl (materialInfo descriptor)) = false ->
  objLoader_load ld (filename descriptor) h = Some (group, h1) ->
  exists root h' mat,
    loadMesh ld descriptor h
    = Resolved (mkModelLoaded (Some root) descriptor, h') /\
    colors h' = colors h1 ++ [mkColor 1%float 1%float 1%float] /\
    Three.materials h' !! length (Three.materials h1) = Some mat /\
    name mat = EmptyString /\
    color mat = Some (length (colors h1)) /\
    envMap mat = None /\
    (renderBackface (materialInfo descriptor) = false -> side mat = FrontSide) /\
    (renderBackface (materialInfo descriptor) = true ->
     children group <> [] -> side mat = DoubleSide).
Proof.
  intros Hext Hraw Hobj.
  destruct (loadMaterial_raw_material ld group (materialInfo descriptor) h1 Hraw)
    as (h' & mat & Hmat & Hrest).
  eexists _, h', mat. split; [|exact Hrest].
  rewrite (loadMesh_obj _ _ _ Hext). unfold loadObj.
  by rewrite Hobj, Hmat.
Qed.

Lemma loadMesh_raw_textures_material_witness :
  exists root h' mat,
    loadMesh studio chairRaw (mkHeap [] [])
    = Resolved (mkModelLoaded (Some root) chairRaw, h') /\
    colors h' = colors workshop ++ [mkColor 1%float 1%float 1%float] /\
    Three.materials h' !! length (Three.materials workshop) = Some mat /\
    name mat = EmptyString /\
    color mat = Some (length (colors workshop)) /\
    envMap mat = None /\
    (renderBackface (materialInfo chairRaw) = false -> side mat = FrontSide) /\
    (renderBackface (materialInfo chairRaw) = true ->
     children chairGroup <> [] -> side mat = DoubleSide).
Proof.
  apply (loadMesh_raw_textures_material
           studio chairRaw (mkHeap [] []) chairGroup workshop).
  - reflexivity.
  - reflexivity.
  - reflexivity.
Defined.

End MeshLoaderMore.
